(** * note-push: a LINE webhook that appends text messages to a daily note

    Shallow embedding of [src/functions/note-push.js] and proofs about it.

    JavaScript strings are modelled as lists of UTF-16 code units, byte
    buffers as lists of octets, [process.env] as a finite map, and the
    effects of the handler (environment reads, HTTP calls, timers, logging)
    as a small state-and-exception monad that records a trace. *)

From Stdlib Require Import NArith ZArith List String Ascii Lia Bool.
From stdpp Require Import base option list gmap strings pretty.

Set Warnings "-register-all".

Local Open Scope N_scope.

(** ** Strings and buffers *)

(** A JavaScript string: its UTF-16 code units. *)
Abbreviation jsstring := (list N) (only parsing).
(** A Node [Buffer]: its octets. *)
Abbreviation buffer := (list N) (only parsing).

(** An ASCII literal as a JavaScript string. *)
Definition js (s : string) : jsstring :=
  map N_of_ascii (list_ascii_of_string s).

Definition LF : N := 10.
Definition CR : N := 13.

Definition jsstring_eqb (s t : jsstring) : bool := bool_decide (s = t).

(** [s.startsWith(p)]: [p] occurs in [s] at position 0. *)
Fixpoint starts_with (p s : jsstring) : bool :=
  match p, s with
  | [], _ => true
  | _ :: _, [] => false
  | a :: p', b :: s' => (a =? b) && starts_with p' s'
  end.

(** [s.includes(p)]. *)
Fixpoint includes (s p : jsstring) : bool :=
  starts_with p s ||
  match s with
  | [] => false
  | _ :: s' => includes s' p
  end.

(** [s.endsWith(p)]. *)
Definition endsWith (s p : jsstring) : bool :=
  starts_with (rev p) (rev s).

(** [s.slice(-n)]: the last [n] code units (all of [s] when it is shorter). *)
Definition slice_last (n : nat) (s : jsstring) : jsstring :=
  drop (length s - n)%nat s.

(** [parts.join(sep)]. *)
Fixpoint join (sep : jsstring) (parts : list jsstring) : jsstring :=
  match parts with
  | [] => []
  | [x] => x
  | x :: rest => x ++ sep ++ join sep rest
  end.

(** ECMAScript WhiteSpace and LineTerminator code points, the ones
    [String.prototype.trim] removes. *)
Definition is_js_whitespace (c : N) : bool :=
  (c =? 0x09) || (c =? 0x0A) || (c =? 0x0B) || (c =? 0x0C) || (c =? 0x0D)
  || (c =? 0x20) || (c =? 0xA0) || (c =? 0x1680)
  || ((0x2000 <=? c) && (c <=? 0x200A))
  || (c =? 0x2028) || (c =? 0x2029) || (c =? 0x202F) || (c =? 0x205F)
  || (c =? 0x3000) || (c =? 0xFEFF).

Fixpoint trimStart (s : jsstring) : jsstring :=
  match s with
  | [] => []
  | c :: s' => if is_js_whitespace c then trimStart s' else s
  end.

Definition trimEnd (s : jsstring) : jsstring := rev (trimStart (rev s)).

(** [s.trim()]. *)
Definition trim (s : jsstring) : jsstring := trimEnd (trimStart s).

(** *** [String.prototype.replaceAll] with a string pattern *)

Definition DOLLAR : N := 36.

(** GetSubstitution for a string pattern (no capture groups): in the
    replacement text, [$$] is a dollar sign, [$&] the matched text, [$`] the
    text before the match and [$'] the text after it; every other use of
    [$] stands for itself. *)
Fixpoint GetSubstitution (matched before after repl : jsstring) : jsstring :=
  match repl with
  | [] => []
  | c :: r =>
    if c =? DOLLAR then
      match r with
      | d :: r' =>
        if d =? DOLLAR then DOLLAR :: GetSubstitution matched before after r'
        else if d =? 38 then matched ++ GetSubstitution matched before after r'
        else if d =? 96 then before ++ GetSubstitution matched before after r'
        else if d =? 39 then after ++ GetSubstitution matched before after r'
        else c :: GetSubstitution matched before after r
      | [] => [c]
      end
    else c :: GetSubstitution matched before after r
  end.

(** The scan of [replaceAll]: [before] is the text already passed, [skip]
    the number of code units of the current match still to pass.  Matches
    are found left to right and do not overlap; an empty pattern matches
    before every code unit and at the end. *)
Fixpoint replaceAll_scan (pat repl before : jsstring) (skip : nat) (s : jsstring)
  : jsstring :=
  match s with
  | [] =>
    match skip, pat with
    | O, [] => GetSubstitution [] before [] repl
    | _, _ => []
    end
  | c :: s' =>
    match skip with
    | S k => replaceAll_scan pat repl (before ++ [c]) k s'
    | O =>
      if starts_with pat s then
        GetSubstitution pat before (drop (length pat) s) repl ++
        match pat with
        | [] => c :: replaceAll_scan pat repl (before ++ [c]) O s'
        | _ :: p' => replaceAll_scan pat repl (before ++ [c]) (length p') s'
        end
      else c :: replaceAll_scan pat repl (before ++ [c]) O s'
    end
  end.

(** [s.replaceAll(pat, repl)]. *)
Definition replaceAll (pat repl s : jsstring) : jsstring :=
  replaceAll_scan pat repl [] O s.

(** *** UTF-8, as [Buffer.from(s, 'utf8')] produces it *)

Definition is_high_surrogate (c : N) : bool := (0xD800 <=? c) && (c <=? 0xDBFF).
Definition is_low_surrogate (c : N) : bool := (0xDC00 <=? c) && (c <=? 0xDFFF).

(** UTF-8 of U+FFFD, which replaces an unpaired surrogate. *)
Definition utf8_replacement : buffer := [0xEF; 0xBF; 0xBD].

Definition utf8_3 (c : N) : buffer :=
  [0xE0 + c / 4096; 0x80 + (c / 64) mod 64; 0x80 + c mod 64].

Definition utf8_4 (hi lo : N) : buffer :=
  let cp := 0x10000 + (hi - 0xD800) * 1024 + (lo - 0xDC00) in
  [0xF0 + cp / 262144; 0x80 + (cp / 4096) mod 64;
   0x80 + (cp / 64) mod 64; 0x80 + cp mod 64].

Fixpoint utf8_encode (s : jsstring) : buffer :=
  match s with
  | [] => []
  | c :: s' =>
    if c <? 0x80 then c :: utf8_encode s'
    else if c <? 0x800 then
      (0xC0 + c / 64) :: (0x80 + c mod 64) :: utf8_encode s'
    else if is_high_surrogate c then
      match s' with
      | d :: s'' =>
        if is_low_surrogate d then utf8_4 c d ++ utf8_encode s''
        else utf8_replacement ++ utf8_encode s'
      | [] => utf8_replacement
      end
    else if is_low_surrogate c then utf8_replacement ++ utf8_encode s'
    else utf8_3 c ++ utf8_encode s'
  end.

(** *** Base64, as [buf.toString('base64')] produces it *)

Definition base64_digit (i : N) : N :=
  if i <? 26 then 65 + i
  else if i <? 52 then 97 + (i - 26)
  else if i <? 62 then 48 + (i - 52)
  else if i =? 62 then 43
  else 47.

Definition PAD : N := 61.

Fixpoint base64_encode (bs : buffer) : jsstring :=
  match bs with
  | [] => []
  | [a] => [base64_digit (a / 4); base64_digit ((a mod 4) * 16); PAD; PAD]
  | [a; b] =>
    [base64_digit (a / 4); base64_digit ((a mod 4) * 16 + b / 16);
     base64_digit ((b mod 16) * 4); PAD]
  | a :: b :: c :: rest =>
    base64_digit (a / 4) :: base64_digit ((a mod 4) * 16 + b / 16)
    :: base64_digit ((b mod 16) * 4 + c / 64) :: base64_digit (c mod 64)
    :: base64_encode rest
  end.


(** ** HMAC-SHA256, as [crypto.createHmac('sha256', key)] computes it *)

Module SHA256.

(** 32-bit words are kept reduced modulo 2^32. *)
Definition wrap (x : N) : N := x mod 4294967296.

Definition rotr (n x : N) : N :=
  N.lor (N.shiftr x n) (wrap (N.shiftl x (32 - n))).

Definition Ch (e f g : N) : N := N.lxor (N.land e f) (N.ldiff g e).
Definition Maj (a b c : N) : N :=
  N.lxor (N.lxor (N.land a b) (N.land a c)) (N.land b c).
Definition Sum0 (a : N) : N := N.lxor (N.lxor (rotr 2 a) (rotr 13 a)) (rotr 22 a).
Definition Sum1 (e : N) : N := N.lxor (N.lxor (rotr 6 e) (rotr 11 e)) (rotr 25 e).
Definition sig0 (x : N) : N := N.lxor (N.lxor (rotr 7 x) (rotr 18 x)) (N.shiftr x 3).
Definition sig1 (x : N) : N := N.lxor (N.lxor (rotr 17 x) (rotr 19 x)) (N.shiftr x 10).

(** The first 64 primes, by trial division. *)
Definition is_prime (n : N) : bool :=
  (1 <? n)
  && forallb (fun d => negb (n mod N.of_nat d =? 0)) (seq 2 (N.to_nat n - 2)).

Definition primes64 : list N :=
  Eval vm_compute in take 64 (List.filter is_prime (map N.of_nat (seq 2 400))).

(** The integer cube root, found bit by bit from [2^bits] down. *)
Fixpoint cube_root_from (bits : nat) (n r : N) : N :=
  match bits with
  | O => r
  | S b =>
    let r' := r + 2 ^ N.of_nat b in
    cube_root_from b n (if r' * r' * r' <=? n then r' else r)
  end.

Definition cube_root (n : N) : N := cube_root_from 40 n 0.

(** The first 32 bits of the fractional part of a cube root, and of a
    square root. *)
Definition frac32_cube_root (p : N) : N := wrap (cube_root (p * 2 ^ 96)).
Definition frac32_square_root (p : N) : N := wrap (N.sqrt (p * 2 ^ 64)).

(** Round constants: the fractional parts of the cube roots of the first
    64 primes. *)
Definition K : list N := Eval vm_compute in map frac32_cube_root primes64.

(** The eight working registers, also the chaining value. *)
Record regs := Regs { ra : N; rb : N; rc : N; rd : N; re : N; rf : N; rg : N; rh : N }.

(** Initial chaining value: the fractional parts of the square roots of
    the first 8 primes. *)
Definition H0 : regs :=
  Eval vm_compute in
    match map frac32_square_root (take 8 primes64) with
    | [a; b; c; d; e; f; g; h] => Regs a b c d e f g h
    | _ => Regs 0 0 0 0 0 0 0 0
    end.

Definition round (k w : N) (s : regs) : regs :=
  let t1 := wrap (rh s + Sum1 (re s) + Ch (re s) (rf s) (rg s) + k + w) in
  let t2 := wrap (Sum0 (ra s) + Maj (ra s) (rb s) (rc s)) in
  Regs (wrap (t1 + t2)) (ra s) (rb s) (rc s) (wrap (rd s + t1)) (re s) (rf s) (rg s).

(** The 64 rounds.  [w] is the window of the next 16 schedule words; each
    round consumes its head and appends the word 16 places later. *)
Fixpoint rounds (ks : list N) (w : list N) (s : regs) : regs :=
  match ks with
  | [] => s
  | k :: ks' =>
    let wt := nth 0 w 0 in
    let wnew := wrap (sig1 (nth 14 w 0) + nth 9 w 0 + sig0 (nth 1 w 0) + wt) in
    rounds ks' (tail w ++ [wnew]) (round k wt s)
  end.

(** Big-endian 32-bit words of a block. *)
Fixpoint words (bs : buffer) : list N :=
  match bs with
  | b0 :: b1 :: b2 :: b3 :: rest =>
    (((b0 * 256 + b1) * 256 + b2) * 256 + b3) :: words rest
  | _ => []
  end.

Definition compress (h : regs) (block : buffer) : regs :=
  let s := rounds K (words block) h in
  Regs (wrap (ra h + ra s)) (wrap (rb h + rb s)) (wrap (rc h + rc s))
       (wrap (rd h + rd s)) (wrap (re h + re s)) (wrap (rf h + rf s))
       (wrap (rg h + rg s)) (wrap (rh h + rh s)).

(** Feed octets one at a time, compressing whenever 64 have gathered. *)
Fixpoint absorb (h : regs) (pending : buffer) (bs : buffer) : regs :=
  match bs with
  | [] => h
  | b :: bs' =>
    let pending' := pending ++ [b] in
    if (length pending' =? 64)%nat then absorb (compress h pending') [] bs'
    else absorb h pending' bs'
  end.

Definition be32 (x : N) : buffer :=
  [x / 16777216; (x / 65536) mod 256; (x / 256) mod 256; x mod 256].

(** Padding: 0x80, zeros up to 56 modulo 64, then the bit length on 8 octets. *)
Definition padding (len : N) : buffer :=
  let bits := 8 * len in
  0x80 :: repeat 0 (N.to_nat ((119 - len mod 64) mod 64))
  ++ be32 (wrap (bits / 4294967296)) ++ be32 (wrap bits).

Definition output (h : regs) : buffer :=
  be32 (ra h) ++ be32 (rb h) ++ be32 (rc h) ++ be32 (rd h)
  ++ be32 (re h) ++ be32 (rf h) ++ be32 (rg h) ++ be32 (rh h).

Definition sha256 (msg : buffer) : buffer :=
  output (absorb H0 [] (msg ++ padding (N.of_nat (length msg)))).

(** HMAC (RFC 2104) with a 64-octet block. *)
Definition hmac (key msg : buffer) : buffer :=
  let k0 := if (64 <? length key)%nat then sha256 key else key in
  let kp := k0 ++ repeat 0 (64 - length k0)%nat in
  sha256 (map (N.lxor 0x5c) kp ++ sha256 (map (N.lxor 0x36) kp ++ msg)).

End SHA256.

(** ** JavaScript values *)

(** A value produced by [JSON.parse].  A number is carried as the text
    [Number::toString] gives for it (binary floating point itself is not
    modelled); [undefined] is the [None] of an [option JValue]. *)
Inductive JValue :=
| JNull
| JBool (b : bool)
| JNum (repr : jsstring)
| JStr (s : jsstring)
| JArr (items : list JValue)
| JObj (props : gmap jsstring JValue).

(** [v.k] and [v?.k] for a property [k] that no prototype defines: present
    only on an object that has it. *)
Definition get_prop (k : string) (v : JValue) : option JValue :=
  match v with
  | JObj props => props !! js k
  | _ => None
  end.

(** [o?.k] on a possibly undefined [o]. *)
Definition get_prop_opt (k : string) (o : option JValue) : option JValue :=
  match o with
  | Some v => get_prop k v
  | None => None
  end.

(** ToBoolean. *)
Definition truthy (v : JValue) : bool :=
  match v with
  | JNull => false
  | JBool b => b
  | JNum repr => negb (jsstring_eqb repr (js "0"))
  | JStr s => negb (jsstring_eqb s [])
  | JArr _ | JObj _ => true
  end.

Definition truthy_opt (o : option JValue) : bool :=
  match o with
  | Some v => truthy v
  | None => false
  end.

(** [v === 'lit']. *)
Definition is_string (lit : string) (o : option JValue) : bool :=
  match o with
  | Some (JStr s) => jsstring_eqb s (js lit)
  | _ => false
  end.

(** An [Error] object: the only kind of value thrown here. *)
Record JSError := { err_name : jsstring; err_message : jsstring }.

Definition new_Error (message : jsstring) : JSError :=
  {| err_name := js "Error"; err_message := message |}.

(** [Error.prototype.toString]. *)
Definition error_toString (e : JSError) : jsstring :=
  match err_name e, err_message e with
  | [], m => m
  | n, [] => n
  | n, m => n ++ js ": " ++ m
  end.

(** [String(e?.message || e)] for a thrown [e]. *)
Definition error_detail (e : JSError) : jsstring :=
  match err_message e with
  | [] => error_toString e
  | m => m
  end.

(** [String(lastErr?.message || lastErr)]; [lastErr] may still be undefined. *)
Definition lastErr_detail (lastErr : option JSError) : jsstring :=
  match lastErr with
  | Some e => error_detail e
  | None => js "undefined"
  end.

(** ** Effects *)

Inductive Outcome (A : Type) :=
| Returns (a : A)
| Throws (e : JSError).
Arguments Returns {A} a.
Arguments Throws {A} e.

Definition outcome_map {A B} (f : A -> B) (o : Outcome A) : Outcome B :=
  match o with
  | Returns a => Returns (f a)
  | Throws e => Throws e
  end.

(** [Array.prototype.map] with a callback that may throw: the first throw
    ends it. *)
Fixpoint map_outcome {A B} (f : A -> Outcome B) (l : list A) : Outcome (list B) :=
  match l with
  | [] => Returns []
  | x :: l' =>
    match f x with
    | Returns y => outcome_map (cons y) (map_outcome f l')
    | Throws e => Throws e
    end
  end.

(** What [String(v)] throws for an object it cannot convert. *)
Definition cannot_convert : JSError :=
  {| err_name := js "TypeError";
     err_message := js "Cannot convert object to primitive value" |}.

(** [String(v)].  A value made by [JSON.parse] holds no function.  An object
    with a key [toString] of its own hides [Object.prototype.toString] behind
    a value that cannot be called; the inherited [valueOf] gives the object
    back, and the conversion throws.  Any other object is "[object Object]".
    An array is the join of its elements, null as the empty text, and throws
    where an element does. *)
Fixpoint ToString (v : JValue) : Outcome jsstring :=
  match v with
  | JNull => Returns (js "null")
  | JBool true => Returns (js "true")
  | JBool false => Returns (js "false")
  | JNum repr => Returns repr
  | JStr s => Returns s
  | JArr items =>
    outcome_map (join (js ","))
      (map_outcome (fun x => match x with JNull => Returns [] | _ => ToString x end) items)
  | JObj props =>
    match props !! js "toString" with
    | Some _ => Throws cannot_convert
    | None => Returns (js "[object Object]")
    end
  end.

(** An outbound HTTP request, as handed to [fetch].  [req_body] is the value
    whose [JSON.stringify] text is sent. *)
Record HttpRequest := {
  req_url : jsstring;
  req_method : jsstring;
  req_headers : gmap jsstring jsstring;
  req_body : option JValue
}.

(** What a [fetch] response offers: its status and the two body readers. *)
Record HttpResponse := {
  res_status : N;
  res_text : Outcome jsstring;
  res_json : Outcome JValue
}.

Definition res_ok (r : HttpResponse) : bool :=
  (200 <=? res_status r) && (res_status r <=? 299).

Inductive FetchOutcome :=
| FetchRejects (e : JSError)
| FetchResolves (r : HttpResponse).

Inductive LogArg :=
| LogStr (s : jsstring)
| LogErr (e : JSError)
| LogUndefined.

(** What the handler does to the outside, in order. *)
Inductive Event :=
| EvEnv (name : string)
| EvFetch (req : HttpRequest)
| EvSleep (ms : N)
| EvLog (args : list LogArg).

(** Everything the handler takes from outside the repository. *)
Record World := {
  (** [process.env] *)
  env : gmap string jsstring;
  (** the outcome of the n-th call of [fetch], counted from 0 *)
  network : nat -> FetchOutcome;
  (** [dtf.formatToParts(new Date())] as (type, value) pairs *)
  clock_parts : list (string * jsstring);
  (** [JSON.parse] *)
  JSON_parse : jsstring -> Outcome JValue;
  (** [Buffer.from(v, 'base64').toString('utf8')] *)
  base64_to_utf8 : JValue -> Outcome jsstring
}.

(** A computation reads and extends the trace and returns or throws. *)
Definition Eff (A : Type) : Type := list Event -> Outcome A * list Event.

Definition ret {A} (a : A) : Eff A := fun tr => (Returns a, tr).
Definition throw {A} (e : JSError) : Eff A := fun tr => (Throws e, tr).
Definition lift {A} (o : Outcome A) : Eff A := fun tr => (o, tr).

Definition bind {A B} (m : Eff A) (k : A -> Eff B) : Eff B :=
  fun tr =>
    match m tr with
    | (Returns a, tr') => k a tr'
    | (Throws e, tr') => (Throws e, tr')
    end.

(** [try { m } catch (e) { handler e }]. *)
Definition try_catch {A} (m : Eff A) (handler : JSError -> Eff A) : Eff A :=
  fun tr =>
    match m tr with
    | (Returns a, tr') => (Returns a, tr')
    | (Throws e, tr') => handler e tr'
    end.

Definition emit (ev : Event) : Eff unit := fun tr => (Returns tt, tr ++ [ev]).

Notation "'let*' x ':=' m 'in' k" := (bind m (fun x => k))
  (at level 10, x name, m at level 100, k at level 200).
Notation "m ';;' k" := (bind m (fun _ => k))
  (at level 100, k at level 200, right associativity).

Definition is_fetch (ev : Event) : bool :=
  match ev with EvFetch _ => true | _ => false end.

(** [await fetch(url, init)]: the world decides, by the number of calls made
    so far. *)
Definition fetch (w : World) (req : HttpRequest) : Eff HttpResponse :=
  fun tr =>
    (match network w (length (List.filter is_fetch tr)) with
     | FetchRejects e => Throws e
     | FetchResolves r => Returns r
     end, tr ++ [EvFetch req]).

(** [process.env[name]], with an unset variable as [None]. *)
Definition getenv (w : World) (name : string) : Eff (option jsstring) :=
  emit (EvEnv name) ;; ret (env w !! name).

(** [context.log(...)]. *)
Definition context_log (args : list LogArg) : Eff unit := emit (EvLog args).

(** [await new Promise((r) => setTimeout(r, ms))]. *)
Definition sleep (ms : N) : Eff unit := emit (EvSleep ms).

(** ** The functions of note-push.js *)

(** [requireEnv]: an unset or empty variable throws. *)
Definition requireEnv (w : World) (name : string) : Eff jsstring :=
  let* v := getenv w name in
  match v with
  | Some (c :: s) => ret (c :: s)
  | _ => throw (new_Error (js "Missing env: " ++ js name))
  end.

(** [process.env.NAME || fallback]. *)
Definition env_or (w : World) (name : string) (fallback : jsstring) : Eff jsstring :=
  let* v := getenv w name in
  match v with
  | Some (c :: s) => ret (c :: s)
  | _ => ret fallback
  end.

(** The result of [formatTokyoParts].  Every use of a field turns it into
    text (a template literal or the replacement of [replaceAll]), so a part
    that [formatToParts] did not give, [undefined] in the source, is kept
    as the text "undefined". *)
Record TimeParts := {
  yyyy : jsstring; yy : jsstring; mm : jsstring; dd : jsstring;
  HH : jsstring; MM : jsstring; SS : jsstring; date : jsstring
}.

Definition undefined_text : jsstring := js "undefined".

Definition formatTokyoParts (parts : list (string * jsstring)) : TimeParts :=
  let get type := snd <$> List.find (fun p => String.eqb (fst p) type) parts in
  let text o := default undefined_text o in
  let year := get "year"%string in
  let month := get "month"%string in
  let day := get "day"%string in
  {| yyyy := text year;
     yy := text (slice_last 2 <$> year);
     mm := text month;
     dd := text day;
     HH := text (get "hour"%string);
     MM := text (get "minute"%string);
     SS := text (get "second"%string);
     date := text year ++ js "-" ++ text month ++ js "-" ++ text day |}.

Definition buildNotePath (template : jsstring) (tokyoParts : TimeParts) : jsstring :=
  replaceAll (js "{date}") (date tokyoParts)
    (replaceAll (js "{dd}") (dd tokyoParts)
      (replaceAll (js "{mm}") (mm tokyoParts)
        (replaceAll (js "{yy}") (yy tokyoParts)
          (replaceAll (js "{yyyy}") (yyyy tokyoParts) template)))).

(** [crypto.timingSafeEqual]: throws on buffers of different lengths. *)
Definition timingSafeEqual (a b : buffer) : Outcome bool :=
  if (length a =? length b)%nat then Returns (bool_decide (a = b))
  else Throws {| err_name := js "RangeError";
                 err_message := js "Input buffers must have the same byte length" |}.

(** The signature LINE sends: base64 of HMAC-SHA256 of the body under the
    channel secret, both taken as UTF-8. *)
Definition hmac_b64 (rawBody channelSecret : jsstring) : jsstring :=
  base64_encode (SHA256.hmac (utf8_encode channelSecret) (utf8_encode rawBody)).

Definition verifyLineSignature (rawBody : jsstring) (signatureHeader : option jsstring)
    (channelSecret : jsstring) : Outcome bool :=
  match signatureHeader with
  | None => Returns false
  | Some [] => Returns false
  | Some sig =>
    let expected := hmac_b64 rawBody channelSecret in
    let a := utf8_encode expected in
    let b := utf8_encode sig in
    if negb (length a =? length b)%nat then Returns false
    else timingSafeEqual a b
  end.

(** *** [encodeURIComponent] *)

Definition is_uri_unreserved (c : N) : bool :=
  ((65 <=? c) && (c <=? 90)) || ((97 <=? c) && (c <=? 122))
  || ((48 <=? c) && (c <=? 57))
  || (c =? 45) || (c =? 95) || (c =? 46) || (c =? 33) || (c =? 126)
  || (c =? 42) || (c =? 39) || (c =? 40) || (c =? 41).

Definition hex_digit (d : N) : N := if d <? 10 then 48 + d else 55 + d.

Definition percent (bs : buffer) : jsstring :=
  concat (map (fun b => [37; hex_digit (b / 16); hex_digit (b mod 16)]) bs).

Definition URIError : JSError :=
  {| err_name := js "URIError"; err_message := js "URI malformed" |}.

Fixpoint encodeURIComponent (s : jsstring) : Outcome jsstring :=
  match s with
  | [] => Returns []
  | c :: s' =>
    if is_uri_unreserved c then outcome_map (cons c) (encodeURIComponent s')
    else if is_high_surrogate c then
      match s' with
      | d :: s'' =>
        if is_low_surrogate d
        then outcome_map (app (percent (utf8_4 c d))) (encodeURIComponent s'')
        else Throws URIError
      | [] => Throws URIError
      end
    else if is_low_surrogate c then Throws URIError
    else outcome_map (app (percent (utf8_encode [c]))) (encodeURIComponent s')
  end.

(** *** The GitHub contents API *)

(** The request [githubRequest] hands to [fetch]: the caller's headers over
    the three fixed ones. *)
Definition github_request (url method token : jsstring) (body : option JValue)
    (headers : gmap jsstring jsstring) : HttpRequest :=
  {| req_url := url;
     req_method := method;
     req_headers :=
       headers ∪
       {[ js "Authorization" := js "Bearer " ++ token;
          js "Accept" := js "application/vnd.github+json";
          js "X-GitHub-Api-Version" := js "2022-11-28" ]};
     req_body := body |}.

Definition githubRequest (w : World) (url method token : jsstring)
    (body : option JValue) (headers : gmap jsstring jsstring) : Eff HttpResponse :=
  fetch w (github_request url method token body headers).

(** What [getGitHubFile] resolves to: [{ exists: false }] or
    [{ exists: true, sha, content }]. *)
Inductive RemoteFile :=
| NotFound
| Found (sha : option JValue) (content : jsstring).

Definition null_property_error (k : string) : JSError :=
  {| err_name := js "TypeError";
     err_message := js "Cannot read properties of null (reading '" ++ js k ++ js "')" |}.

Definition contents_url (owner repo path : jsstring) : jsstring :=
  js "https://api.github.com/repos/" ++ owner ++ js "/" ++ repo
  ++ js "/contents/" ++ path.

Definition getGitHubFile (w : World) (owner repo path branch token : jsstring)
  : Eff RemoteFile :=
  let* o := lift (encodeURIComponent owner) in
  let* r := lift (encodeURIComponent repo) in
  let* b := lift (encodeURIComponent branch) in
  let url := contents_url o r path ++ js "?ref=" ++ b in
  let* res := githubRequest w url (js "GET") token None ∅ in
  if res_status res =? 404 then ret NotFound
  else if negb (res_ok res) then
    let* text := lift (res_text res) in
    throw (new_Error (js "GitHub GET failed (" ++ js (pretty (res_status res))
                      ++ js "): " ++ text))
  else
    let* json := lift (res_json res) in
    match json with
    | JNull => throw (null_property_error "content")
    | _ =>
      let encoded :=
        match get_prop "content" json with
        | Some v => if truthy v then v else JStr []
        | None => JStr []
        end in
      let* content := lift (base64_to_utf8 w encoded) in
      ret (Found (get_prop "sha" json) content)
    end.

(** The object [putGitHubFile] sends: [sha] is a field only when truthy. *)
Definition put_body (message content branch : jsstring) (sha : option JValue) : JValue :=
  let fields : gmap jsstring JValue :=
    {[ js "message" := JStr message;
       js "content" := JStr (base64_encode (utf8_encode content));
       js "branch" := JStr branch ]} in
  match sha with
  | Some v => if truthy v then JObj (<[js "sha" := v]> fields) else JObj fields
  | None => JObj fields
  end.

Definition putGitHubFile (w : World) (owner repo path branch token content : jsstring)
    (sha : option JValue) (message : jsstring) : Eff JValue :=
  let* o := lift (encodeURIComponent owner) in
  let* r := lift (encodeURIComponent repo) in
  let url := contents_url o r path in
  let body := put_body message content branch sha in
  let* res := githubRequest w url (js "PUT") token (Some body)
                {[ js "Content-Type" := js "application/json" ]} in
  if negb (res_ok res) then
    let* text := lift (res_text res) in
    throw (new_Error (js "GitHub PUT failed (" ++ js (pretty (res_status res))
                      ++ js "): " ++ text))
  else lift (res_json res).

Definition ensureEndsWithNewline (s : jsstring) : jsstring :=
  match s with
  | [] => [LF]
  | _ => if endsWith s [LF] then s else s ++ [LF]
  end.

(** ** The HTTP handler *)

(** The inbound request: [request.method], [await request.text()] and
    [request.headers] (names in lower case). *)
Record Request := {
  request_method : jsstring;
  request_text : jsstring;
  request_headers : gmap jsstring jsstring
}.

(** [{ status, jsonBody }]. *)
Record Response := { status : N; jsonBody : JValue }.

(** An entry of [textMessages]: [{ text, userId }], [userId] possibly null. *)
Record TextMessage := { text : jsstring; userId : option jsstring }.

(** [Array.isArray(payload?.events) ? payload.events : []]. *)
Definition events_of (payload : JValue) : list JValue :=
  match get_prop "events" payload with
  | Some (JArr items) => items
  | _ => []
  end.

(** [e?.type === 'message' && e?.message?.type === 'text']. *)
Definition is_text_event (e : JValue) : bool :=
  is_string "message" (get_prop "type" e)
  && is_string "text" (get_prop_opt "type" (get_prop "message" e)).

(** [String(e.message.text ?? '')]. *)
Definition event_text (e : JValue) : Outcome jsstring :=
  match get_prop_opt "text" (get_prop "message" e) with
  | None | Some JNull => Returns []
  | Some v => ToString v
  end.

(** [e?.source?.userId ? String(e.source.userId) : null]. *)
Definition event_userId (e : JValue) : Outcome (option jsstring) :=
  match get_prop_opt "userId" (get_prop "source" e) with
  | Some v => if truthy v then outcome_map Some (ToString v) else Returns None
  | None => Returns None
  end.

(** The callback of [map]: the text is converted first, then the sender. *)
Definition to_message (e : JValue) : Outcome TextMessage :=
  match event_text e with
  | Returns s => outcome_map (fun u => {| text := s; userId := u |}) (event_userId e)
  | Throws err => Throws err
  end.

(** [m.text.trim().length > 0]. *)
Definition has_text (m : TextMessage) : bool :=
  (0 <? length (trim (text m)))%nat.

(** [events.filter(...).map(...).filter(...)]: every event of the first
    filter is converted before the second filter looks at any text. *)
Definition textMessages_of (payload : JValue) : Outcome (list TextMessage) :=
  outcome_map (List.filter has_text)
    (map_outcome to_message (List.filter is_text_event (events_of payload))).

(** One rendered line: [- HH:MM text], line breaks of the text made LF. *)
Definition render_line (t : TimeParts) (m : TextMessage) : jsstring :=
  let time := HH t ++ js ":" ++ MM t in
  js "- " ++ time ++ js " "
  ++ replaceAll [CR] [LF] (replaceAll [CR; LF] [LF] (text m)).

(** [entry]: the block appended to the note. *)
Definition entry_of (t : TimeParts) (textMessages : list TextMessage) : jsstring :=
  join [LF] (map (render_line t) textMessages) ++ [LF].

(** The content written when the note does not exist, and when it does. *)
Definition nextContent_of (t : TimeParts) (entry : jsstring) (cur : RemoteFile) : jsstring :=
  match cur with
  | NotFound => js "# " ++ date t ++ [LF; LF] ++ entry
  | Found _ content => ensureEndsWithNewline content ++ entry
  end.

(** [cur.exists ? cur.sha : undefined]. *)
Definition sha_of (cur : RemoteFile) : option JValue :=
  match cur with
  | NotFound => None
  | Found sha _ => sha
  end.

(** Where and as whom to write. *)
Record Target := {
  owner : jsstring; repo : jsstring; branch : jsstring;
  path : jsstring; ghToken : jsstring
}.

(** The body of the [try] block, up to its [return]: read the note, write it
    back with the entry appended. *)
Definition attempt_once (w : World) (tg : Target) (t : TimeParts)
    (entry commitMsg : jsstring) : Eff unit :=
  let* cur := getGitHubFile w (owner tg) (repo tg) (path tg) (branch tg) (ghToken tg) in
  let nextContent := nextContent_of t entry cur in
  putGitHubFile w (owner tg) (repo tg) (path tg) (branch tg) (ghToken tg)
                nextContent (sha_of cur) commitMsg ;;
  ret tt.

(** [msg.includes('(409)') || msg.includes('409')]. *)
Definition isConflict (msg : jsstring) : bool :=
  includes msg (js "(409)") || includes msg (js "409").

(** How the [for] loop ends: by the [return] in the [try] block, or by
    leaving the loop with [lastErr]. *)
Inductive LoopExit :=
| Returned (r : Response)
| Left (lastErr : option JSError).

Definition JNat (n : nat) : JValue := JNum (js (pretty n)).

Definition appended_response (n : nat) (path : jsstring) : Response :=
  {| status := 200;
     jsonBody := JObj {[ js "ok" := JBool true; js "appended" := JNat n;
                         js "path" := JStr path ]} |}.

(** [for (let attempt = 1; attempt <= 3; attempt++)], over the values
    [attempt] still has to take. *)
Fixpoint append_loop (w : World) (tg : Target) (t : TimeParts)
    (entry commitMsg : jsstring) (appended : nat)
    (attempts : list N) (lastErr : option JSError) : Eff LoopExit :=
  match attempts with
  | [] => ret (Left lastErr)
  | attempt :: later =>
    try_catch
      (attempt_once w tg t entry commitMsg ;;
       ret (Returned (appended_response appended (path tg))))
      (fun e =>
         let msg := error_detail e in
         if negb (isConflict msg) || (attempt =? 3) then ret (Left (Some e))
         else
           sleep (150 * attempt) ;;
           append_loop w tg t entry commitMsg appended later (Some e))
  end.

Definition failure_log_arg (lastErr : option JSError) : LogArg :=
  match lastErr with
  | Some e => match err_message e with [] => LogErr e | m => LogStr m end
  | None => LogUndefined
  end.

(** The response bodies the handler can send. *)
Definition health_response : Response :=
  {| status := 200;
     jsonBody := JObj {[ js "ok" := JBool true; js "name" := JStr (js "note-push") ]} |}.

Definition invalid_signature_response : Response :=
  {| status := 401;
     jsonBody := JObj {[ js "ok" := JBool false;
                         js "error" := JStr (js "Invalid signature") ]} |}.

Definition invalid_json_response : Response :=
  {| status := 400;
     jsonBody := JObj {[ js "ok" := JBool false; js "error" := JStr (js "Invalid JSON") ]} |}.

Definition noop_response : Response :=
  {| status := 200;
     jsonBody := JObj {[ js "ok" := JBool true; js "appended" := JNat 0 ]} |}.

Definition failure_response (lastErr : option JSError) (path : jsstring) : Response :=
  {| status := 200;
     jsonBody := JObj {[ js "ok" := JBool false;
                         js "error" := JStr (js "append_failed");
                         js "detail" := JStr (lastErr_detail lastErr);
                         js "path" := JStr path ]} |}.

(** What follows the loop: the response of the [return] inside it, or the
    log line and the failure response after it. *)
Definition finish (path : jsstring) (exit : LoopExit) : Eff Response :=
  match exit with
  | Returned r => ret r
  | Left lastErr =>
    context_log [LogStr (js "Failed to append note:"); failure_log_arg lastErr] ;;
    ret (failure_response lastErr path)
  end.

Definition handler (w : World) (request : Request) : Eff Response :=
  if jsstring_eqb (request_method request) (js "GET") then ret health_response
  else
    let rawBody := request_text request in
    let* channelSecret := requireEnv w "LINE_CHANNEL_SECRET" in
    let signature := request_headers request !! js "x-line-signature" in
    let* verified := lift (verifyLineSignature rawBody signature channelSecret) in
    if negb verified then
      context_log [LogStr (js "Invalid LINE signature")] ;;
      ret invalid_signature_response
    else
      match JSON_parse w rawBody with
      | Throws _ => ret invalid_json_response
      | Returns payload =>
        let* textMessages := lift (textMessages_of payload) in
        if (length textMessages =? 0)%nat then ret noop_response
        else
          let* ghToken := requireEnv w "GITHUB_TOKEN" in
          let* owner := env_or w "GITHUB_OWNER" (js "KijimaMotofumi") in
          let* repo := env_or w "GITHUB_REPO" (js "note") in
          let* branch := env_or w "GITHUB_BRANCH" (js "main") in
          let* template := env_or w "NOTE_FILE_PATH_TEMPLATE" (js "daily/{date}.md") in
          let t := formatTokyoParts (clock_parts w) in
          let path := buildNotePath template t in
          let entry := entry_of t textMessages in
          let commitMsg := js "note: append from LINE (" ++ date t ++ js ")" in
          let tg := {| owner := owner; repo := repo; branch := branch;
                       path := path; ghToken := ghToken |} in
          let* exit := append_loop w tg t entry commitMsg (length textMessages)
                                   [1; 2; 3] None in
          finish path exit
      end.

(** ** The specification's own words, as definitions *)

(** An event the specification keeps: type "message", message type "text",
    and a text that is not empty once trimmed.  An event whose text [String]
    cannot convert has no text to keep. *)
Definition qualifies (e : JValue) : bool :=
  is_string "message" (get_prop "type" e)
  && is_string "text" (get_prop_opt "type" (get_prop "message" e))
  && match event_text e with
     | Returns s => negb (jsstring_eqb (trim s) [])
     | Throws _ => false
     end.

(** [String] succeeds on the text and on the sender of an event. *)
Definition converts (e : JValue) : Prop :=
  (exists s, event_text e = Returns s) /\ (exists u, event_userId e = Returns u).

(** Line breaks made LF in one pass: CR LF and a lone CR each become LF. *)
Fixpoint normalize_newlines (s : jsstring) : jsstring :=
  match s with
  | [] => []
  | c :: s' =>
    if c =? CR then
      LF :: match s' with
            | d :: s'' => if d =? LF then normalize_newlines s'' else normalize_newlines s'
            | [] => []
            end
    else c :: normalize_newlines s'
  end.

Fixpoint leading_newlines (s : jsstring) : nat :=
  match s with
  | c :: s' => if c =? LF then S (leading_newlines s') else O
  | [] => O
  end.

(** The number of LF code units a string ends with. *)
Definition trailing_newlines (s : jsstring) : nat := leading_newlines (rev s).

(** A message that arrives in a webhook event, and the payload carrying it. *)
Definition text_event (s : jsstring) : JValue :=
  JObj {[ js "type" := JStr (js "message");
          js "message" := JObj {[ js "type" := JStr (js "text"); js "text" := JStr s ]} ]}.

(** A text message with a sender given as any JSON value. *)
Definition text_event_from_value (sender : JValue) (s : jsstring) : JValue :=
  JObj {[ js "type" := JStr (js "message");
          js "source" := JObj {[ js "type" := JStr (js "user"); js "userId" := sender ]};
          js "message" := JObj {[ js "type" := JStr (js "text"); js "text" := JStr s ]} ]}.

(** A whitespace-only text message whose sender is an object with a key
    toString, and a message whose text is such an object. *)
Definition odd_sender_event : JValue :=
  text_event_from_value (JObj {[ js "toString" := JNum (js "1") ]}) (js "   ").

Definition odd_text_event : JValue :=
  JObj {[ js "type" := JStr (js "message");
          js "message" := JObj {[ js "type" := JStr (js "text");
                                  js "text" := JObj {[ js "toString" := JNum (js "1") ]} ]} ]}.

Definition payload_of (events : list JValue) : JValue :=
  JObj {[ js "events" := JArr events ]}.

(** The time of the examples: 2026-01-02 14:03:09 in Tokyo. *)
Definition example_parts : list (string * jsstring) :=
  [("year"%string, js "2026"); ("literal"%string, js "/");
   ("month"%string, js "01"); ("literal"%string, js "/");
   ("day"%string, js "02"); ("literal"%string, js " ");
   ("hour"%string, js "14"); ("literal"%string, js ":");
   ("minute"%string, js "03"); ("literal"%string, js ":");
   ("second"%string, js "09")].

Definition example_time : TimeParts := formatTokyoParts example_parts.

Definition ascii_only (s : list N) : Prop := Forall (fun c => c < 0x80) s.

(** *** Path templates *)

Definition OPEN : N := 123.

Definition is_digit (c : N) : bool := (48 <=? c) && (c <=? 57).

(** A decimal string: one or more digits. *)
Definition decimal (s : jsstring) : Prop :=
  s <> [] /\ forallb is_digit s = true.

(** The shape the data model gives to the calendar fields of a TimeParts. *)
Definition calendar_fields_decimal (p : TimeParts) : Prop :=
  decimal (yyyy p) /\ decimal (yy p) /\ decimal (mm p) /\ decimal (dd p)
  /\ date p = yyyy p ++ js "-" ++ mm p ++ js "-" ++ dd p.

(** The placeholders and the field each stands for. *)
Definition placeholders (p : TimeParts) : list (jsstring * jsstring) :=
  [(js "{yyyy}", yyyy p); (js "{yy}", yy p); (js "{mm}", mm p);
   (js "{dd}", dd p); (js "{date}", date p)].

(** One pass from left to right over the template: where a placeholder
    starts, its value is written and the placeholder passed over; any other
    code unit is copied.  [skip] counts the code units of the placeholder
    still to pass. *)
Fixpoint substitute (table : list (jsstring * jsstring)) (skip : nat) (s : jsstring)
  : jsstring :=
  match s with
  | [] => []
  | c :: s' =>
    match skip with
    | S k => substitute table k s'
    | O =>
      match List.find (fun e => starts_with (fst e) s) table with
      | Some (name, value) => value ++ substitute table (length name - 1) s'
      | None => c :: substitute table O s'
      end
    end
  end.

Definition resolve_placeholders (template : jsstring) (p : TimeParts) : jsstring :=
  substitute (placeholders p) O template.

(** The code's way: one [replaceAll] per table entry, in order. *)
Definition passes (table : list (jsstring * jsstring)) (s : jsstring) : jsstring :=
  fold_left (fun acc e => replaceAll (fst e) (snd e) acc) table s.

(** Code units that occur in values and never in placeholders. *)
Definition inert_char (c : N) : bool := is_digit c || (c =? 45).

Definition inert (v : jsstring) : Prop := v <> [] /\ forallb inert_char v = true.

(** Two words that differ at a position both have. *)
Fixpoint diverge (p t : jsstring) : bool :=
  match p, t with
  | a :: p', b :: t' => negb (a =? b) || diverge p' t'
  | _, _ => false
  end.

Definition placeholder_name (name : jsstring) : Prop :=
  exists letters, name = OPEN :: letters
    /\ forallb (fun c => negb (inert_char c) && negb (c =? OPEN)) letters = true.

(** A table [passes] and [substitute] agree on: names in braces, values
    made of inert code units, and every name differing from the later ones
    before either ends. *)
Fixpoint good_table (table : list (jsstring * jsstring)) : Prop :=
  match table with
  | [] => True
  | e :: rest =>
    placeholder_name (fst e) /\ inert (snd e)
    /\ Forall (fun e' => diverge (fst e) (fst e') = true) rest
    /\ good_table rest
  end.

(** *** Traces of the append loop *)

(** What an event is, without its payload. *)
Inductive Kind :=
| KEnv
| KGet
| KPut
| KOtherFetch
| KSleep (ms : N)
| KLog.

Definition kind_of (ev : Event) : Kind :=
  match ev with
  | EvEnv _ => KEnv
  | EvFetch req =>
    if jsstring_eqb (req_method req) (js "GET") then KGet
    else if jsstring_eqb (req_method req) (js "PUT") then KPut
    else KOtherFetch
  | EvSleep ms => KSleep ms
  | EvLog _ => KLog
  end.

(** One attempt does nothing to the store (it threw before any call), or
    fetches the document, or fetches it and then writes. *)
Definition attempt_kinds (ks : list Kind) : Prop :=
  ks = [] \/ ks = [KGet] \/ ks = [KGet; KPut].

(** The error the client builds from a response with status 409. *)
Definition conflict_error (e : JSError) : Prop :=
  exists verb body,
    e = new_Error (js "GitHub " ++ verb ++ js " failed (409): " ++ body).

(** What an answer with status 409 makes the client throw: the error built
    from the text of the answer, or what reading that text throws. *)
Definition error_of_409 (verb : jsstring) (res : HttpResponse) (e : JSError) : Prop :=
  match res_text res with
  | Returns body =>
    e = new_Error (js "GitHub " ++ verb ++ js " failed (409): " ++ body)
    /\ conflict_error e
  | Throws e' => e = e'
  end.

(** The specification's version conflict: the store answered with the
    conflict status. *)
Definition reports_conflict (o : FetchOutcome) : bool :=
  match o with
  | FetchResolves r => res_status r =? 409
  | FetchRejects _ => false
  end.

(** The existing content made to end with exactly one newline: every
    trailing LF dropped, one LF added. *)
Fixpoint drop_leading_newlines (s : jsstring) : jsstring :=
  match s with
  | c :: s' => if c =? LF then drop_leading_newlines s' else s
  | [] => []
  end.

Definition exactly_one_trailing_newline (s : jsstring) : jsstring :=
  rev (drop_leading_newlines (rev s)) ++ [LF].

(** The [sha] and [content] fields of the body of a write. *)
Definition written_sha (req : HttpRequest) : option JValue :=
  get_prop_opt "sha" (req_body req).

Definition written_content (req : HttpRequest) : option JValue :=
  get_prop_opt "content" (req_body req).

(** What a write of the text [content] carries in its [content] field. *)
Definition encoded (content : jsstring) : option JValue :=
  Some (JStr (base64_encode (utf8_encode content))).

(** *** A world for the examples *)

Definition base64_value (c : N) : option N :=
  if (65 <=? c) && (c <=? 90) then Some (c - 65)
  else if (97 <=? c) && (c <=? 122) then Some (c - 71)
  else if (48 <=? c) && (c <=? 57) then Some (c + 4)
  else if c =? 43 then Some 62
  else if c =? 47 then Some 63
  else None.

(** Base64 text without line breaks back to octets. *)
Fixpoint base64_decode (s : jsstring) : option buffer :=
  match s with
  | [] => Some []
  | c1 :: c2 :: c3 :: c4 :: rest =>
    match base64_value c1, base64_value c2 with
    | Some v1, Some v2 =>
      let b1 := v1 * 4 + v2 / 16 in
      if c3 =? PAD then Some [b1]
      else
        match base64_value c3 with
        | Some v3 =>
          let b2 := (v2 mod 16) * 16 + v3 / 4 in
          if c4 =? PAD then Some [b1; b2]
          else
            match base64_value c4, base64_decode rest with
            | Some v4, Some bs => Some (b1 :: b2 :: (v3 mod 4) * 64 + v4 :: bs)
            | _, _ => None
            end
        | None => None
        end
    | _, _ => None
    end
  | _ => None
  end.

(** [Buffer.from(v, 'base64').toString('utf8')] on the values of the
    examples: strings of well-formed base64 that encode ASCII text. *)
Definition example_base64_to_utf8 (v : JValue) : Outcome jsstring :=
  match v with
  | JStr s =>
    match base64_decode s with
    | Some bs => Returns bs
    | None => Throws {| err_name := js "TypeError"; err_message := js "unsupported" |}
    end
  | _ => Throws {| err_name := js "TypeError"; err_message := js "unsupported" |}
  end.

(** A word between double quotes. *)
Definition quoted (s : string) : jsstring := 34 :: js s ++ [34].

(** The two request bodies of the examples: one text message, one image. *)
Definition body_hello : jsstring :=
  js "{" ++ quoted "events" ++ js ":[{" ++ quoted "type" ++ js ":" ++ quoted "message"
  ++ js "," ++ quoted "message" ++ js ":{" ++ quoted "type" ++ js ":" ++ quoted "text"
  ++ js "," ++ quoted "text" ++ js ":" ++ quoted "hello" ++ js "}}]}".

Definition body_image : jsstring :=
  js "{" ++ quoted "events" ++ js ":[{" ++ quoted "type" ++ js ":" ++ quoted "message"
  ++ js "," ++ quoted "message" ++ js ":{" ++ quoted "type" ++ js ":" ++ quoted "image"
  ++ js "}}]}".

Definition image_event : JValue :=
  JObj {[ js "type" := JStr (js "message");
          js "message" := JObj {[ js "type" := JStr (js "image") ]} ]}.

(** [JSON.parse] on the bodies of the examples; any other text is taken as
    malformed. *)
Definition example_JSON_parse (s : jsstring) : Outcome JValue :=
  if jsstring_eqb s body_hello then Returns (payload_of [text_event (js "hello")])
  else if jsstring_eqb s body_image then Returns (payload_of [image_event])
  else Throws {| err_name := js "SyntaxError"; err_message := js "Unexpected token" |}.

Definition example_env : gmap string jsstring :=
  {[ "LINE_CHANNEL_SECRET"%string := js "secret";
     "GITHUB_TOKEN"%string := js "ghp_token" ]}.

Definition example_world (environment : gmap string jsstring)
    (net : nat -> FetchOutcome) : World :=
  {| env := environment;
     network := net;
     clock_parts := example_parts;
     JSON_parse := example_JSON_parse;
     base64_to_utf8 := example_base64_to_utf8 |}.

(** A POST with the signature LINE would send. *)
Definition signed_post (body : jsstring) : Request :=
  {| request_method := js "POST";
     request_text := body;
     request_headers := {[ js "x-line-signature" := hmac_b64 body (js "secret") ]} |}.

Definition response (st : N) (body : jsstring) (json : JValue) : FetchOutcome :=
  FetchResolves {| res_status := st; res_text := Returns body; res_json := Returns json |}.

(** The store's answer to a fetch of an existing note. *)
Definition note_found (sha content_base64 : jsstring) : FetchOutcome :=
  response 200 [] (JObj {[ js "sha" := JStr sha; js "content" := JStr content_base64 ]}).

Definition example_target : Target :=
  {| owner := js "KijimaMotofumi"; repo := js "note"; branch := js "main";
     path := js "daily/2026-01-02.md"; ghToken := js "ghp_token" |}.

Definition example_entry : jsstring :=
  entry_of example_time [{| text := js "hello"; userId := None |}].

Definition example_commit : jsstring := js "note: append from LINE (2026-01-02)".

(** *** The configuration the handler reads *)

(** [process.env.NAME || fallback] as a value. *)
Definition env_text (w : World) (name : string) (fallback : jsstring) : jsstring :=
  match env w !! name with
  | Some (c :: s) => c :: s
  | _ => fallback
  end.

Definition configured_template (w : World) : jsstring :=
  env_text w "NOTE_FILE_PATH_TEMPLATE" (js "daily/{date}.md").

Definition configured_path (w : World) : jsstring :=
  buildNotePath (configured_template w) (formatTokyoParts (clock_parts w)).

Definition configured_target (w : World) (token : jsstring) : Target :=
  {| owner := env_text w "GITHUB_OWNER" (js "KijimaMotofumi");
     repo := env_text w "GITHUB_REPO" (js "note");
     branch := env_text w "GITHUB_BRANCH" (js "main");
     path := configured_path w;
     ghToken := token |}.

Definition configured_commit (w : World) : jsstring :=
  js "note: append from LINE (" ++ date (formatTokyoParts (clock_parts w)) ++ js ")".

(** The environment reads of a request that reaches the append loop. *)
Definition config_reads : list Event :=
  [EvEnv "LINE_CHANNEL_SECRET"; EvEnv "GITHUB_TOKEN"; EvEnv "GITHUB_OWNER";
   EvEnv "GITHUB_REPO"; EvEnv "GITHUB_BRANCH"; EvEnv "NOTE_FILE_PATH_TEMPLATE"]%string.

(** The append loop of the handler and what follows it, for the extracted
    text messages and a token. *)
Definition append_and_finish (w : World) (token : jsstring)
    (textMessages : list TextMessage) : Eff Response :=
  let t := formatTokyoParts (clock_parts w) in
  let* exit := append_loop w (configured_target w token) t (entry_of t textMessages)
                 (configured_commit w) (length textMessages) [1; 2; 3] None in
  finish (configured_path w) exit.

(** *** The two requests of an attempt, owner, repository and branch already
    percent-encoded *)

Definition get_request (o r path b token : jsstring) : HttpRequest :=
  github_request (contents_url o r path ++ js "?ref=" ++ b) (js "GET") token None ∅.

Definition put_request (o r path token : jsstring) (body : JValue) : HttpRequest :=
  github_request (contents_url o r path) (js "PUT") token (Some body)
                 {[ js "Content-Type" := js "application/json" ]}.

(** *** Stores for the examples *)

Definition no_network (n : nat) : FetchOutcome :=
  FetchRejects {| err_name := js "TypeError"; err_message := js "fetch failed" |}.

(** The note exists and every write meets a conflict. *)
Definition store_always_conflicts (n : nat) : FetchOutcome :=
  if Nat.even n then note_found (js "3f2a") (js "b2xkCg==")
  else response 409 (js "sha mismatch") JNull.

(** The first fetch fails with a server error whose text mentions 409; then
    the note is missing and the write is accepted. *)
Definition store_error_then_ok (n : nat) : FetchOutcome :=
  match n with
  | O => response 500 (js "upstream 409 error") JNull
  | 1%nat => response 404 (js "Not Found") JNull
  | _ => response 201 [] (JObj ∅)
  end.

(** The note exists and ends with two newlines; the write is accepted. *)
Definition store_with_blank_line (n : nat) : FetchOutcome :=
  match n with
  | O => note_found (js "3f2a") (js "YQoK")
  | _ => response 200 [] (JObj ∅)
  end.

(** The note exists; the write is answered 409 and the text of the answer
    cannot be read. *)
Definition store_conflict_unreadable (n : nat) : FetchOutcome :=
  match n with
  | O => note_found (js "3f2a") (js "b2xkCg==")
  | _ => FetchResolves
           {| res_status := 409;
              res_text := Throws {| err_name := js "TypeError";
                                    err_message := js "terminated" |};
              res_json := Throws {| err_name := js "TypeError";
                                    err_message := js "terminated" |} |}
  end.

(** The note is missing; the write is accepted. *)
Definition store_without_note (n : nat) : FetchOutcome :=
  match n with
  | O => response 404 (js "Not Found") JNull
  | _ => response 201 [] (JObj ∅)
  end.

(** ** Settings, calls and senders *)

(** *** Settings that are missing *)

(** [!process.env[name]]: the variable is unset or empty. *)
Definition env_missing (w : World) (name : string) : Prop :=
  env w !! name = None \/ env w !! name = Some [].

Definition missing_env_error (name : string) : JSError :=
  new_Error (js "Missing env: " ++ js name).

(** The secret set to the empty text. *)
Definition env_with_empty_secret : gmap string jsstring :=
  {[ "LINE_CHANNEL_SECRET"%string := []; "GITHUB_TOKEN"%string := js "ghp_token" ]}.

(** The token set to the empty text. *)
Definition env_with_empty_token : gmap string jsstring :=
  {[ "LINE_CHANNEL_SECRET"%string := js "secret"; "GITHUB_TOKEN"%string := [] ]}.

(** The store calls in a trace. *)
Definition fetches (tr : list Event) : list Event := List.filter is_fetch tr.

(** *** Calls to the store *)

(** A call as [githubRequest] makes them for the handler: to the contents
    API of api.github.com, with the bearer token and the API version, as a
    GET without body or a PUT with one. *)
Definition github_call (token : jsstring) (req : HttpRequest) : Prop :=
  starts_with (js "https://api.github.com/repos/") (req_url req) = true
  /\ req_headers req !! js "Authorization" = Some (js "Bearer " ++ token)
  /\ req_headers req !! js "Accept" = Some (js "application/vnd.github+json")
  /\ req_headers req !! js "X-GitHub-Api-Version" = Some (js "2022-11-28")
  /\ ((req_method req = js "GET" /\ req_body req = None)
      \/ (req_method req = js "PUT" /\ req_body req <> None
          /\ req_headers req !! js "Content-Type" = Some (js "application/json"))).

(** What the append loop may do: call the store, or wait. *)
Definition loop_event (token : jsstring) (ev : Event) : Prop :=
  match ev with
  | EvFetch req => github_call token req
  | EvSleep _ => True
  | EvEnv _ | EvLog _ => False
  end.

(** The store accepts the write but its answer is not JSON. *)
Definition store_accepts_unreadably (n : nat) : FetchOutcome :=
  match n with
  | O => response 404 (js "Not Found") JNull
  | _ => FetchResolves
           {| res_status := 200; res_text := Returns (js "<html>");
              res_json := Throws {| err_name := js "SyntaxError";
                                    err_message := js "Unexpected token <" |} |}
  end.

(** *** A payload that names its sender *)

Definition text_event_from (sender s : jsstring) : JValue :=
  JObj {[ js "type" := JStr (js "message");
          js "source" := JObj {[ js "type" := JStr (js "user");
                                 js "userId" := JStr sender ]};
          js "message" := JObj {[ js "type" := JStr (js "text"); js "text" := JStr s ]} ]}.

Definition body_hello_from : jsstring :=
  js "{" ++ quoted "events" ++ js ":[{" ++ quoted "type" ++ js ":" ++ quoted "message"
  ++ js "," ++ quoted "source" ++ js ":{" ++ quoted "type" ++ js ":" ++ quoted "user"
  ++ js "," ++ quoted "userId" ++ js ":" ++ quoted "U4af4980629" ++ js "}"
  ++ js "," ++ quoted "message" ++ js ":{" ++ quoted "type" ++ js ":" ++ quoted "text"
  ++ js "," ++ quoted "text" ++ js ":" ++ quoted "hello" ++ js "}}]}".

(** [JSON.parse] that also reads the body with a sender. *)
Definition sender_JSON_parse (s : jsstring) : Outcome JValue :=
  if jsstring_eqb s body_hello_from
  then Returns (payload_of [text_event_from (js "U4af4980629") (js "hello")])
  else example_JSON_parse s.

(** The bodies of two requests [String] fails on: a whitespace-only text
    from a sender that is an object with a key toString, and a text that is
    such an object. *)
Definition body_odd_sender : jsstring :=
  js "{" ++ quoted "events" ++ js ":[{" ++ quoted "type" ++ js ":" ++ quoted "message"
  ++ js "," ++ quoted "source" ++ js ":{" ++ quoted "type" ++ js ":" ++ quoted "user"
  ++ js "," ++ quoted "userId" ++ js ":{" ++ quoted "toString" ++ js ":1}}"
  ++ js "," ++ quoted "message" ++ js ":{" ++ quoted "type" ++ js ":" ++ quoted "text"
  ++ js "," ++ quoted "text" ++ js ":" ++ quoted "   " ++ js "}}]}".

Definition body_odd_text : jsstring :=
  js "{" ++ quoted "events" ++ js ":[{" ++ quoted "type" ++ js ":" ++ quoted "message"
  ++ js "," ++ quoted "message" ++ js ":{" ++ quoted "type" ++ js ":" ++ quoted "text"
  ++ js "," ++ quoted "text" ++ js ":{" ++ quoted "toString" ++ js ":1}}}]}".

Definition odd_JSON_parse (s : jsstring) : Outcome JValue :=
  if jsstring_eqb s body_odd_sender then Returns (payload_of [odd_sender_event])
  else if jsstring_eqb s body_odd_text then Returns (payload_of [odd_text_event])
  else example_JSON_parse s.

Definition odd_world (environment : gmap string jsstring) : World :=
  {| env := environment;
     network := store_without_note;
     clock_parts := example_parts;
     JSON_parse := odd_JSON_parse;
     base64_to_utf8 := example_base64_to_utf8 |}.

Definition sender_world : World :=
  {| env := example_env;
     network := store_without_note;
     clock_parts := example_parts;
     JSON_parse := sender_JSON_parse;
     base64_to_utf8 := example_base64_to_utf8 |}.

(** ** Lists and strings *)

Lemma filter_map_comm {A B} (f : A -> B) (p : B -> bool) (l : list A) :
  List.filter p (map f l) = map f (List.filter (fun x => p (f x)) l).
Proof.
  induction l as [|x l IH]; simpl; [done|].
  destruct (p (f x)); simpl; by rewrite IH.
Qed.

Lemma filter_filter_and {A} (p q : A -> bool) (l : list A) :
  List.filter q (List.filter p l) = List.filter (fun x => p x && q x) l.
Proof.
  induction l as [|x l IH]; simpl; [done|].
  destruct (p x); simpl; [destruct (q x)|]; by rewrite IH.
Qed.

Lemma jsstring_eqb_true (s t : jsstring) : jsstring_eqb s t = true <-> s = t.
Proof. unfold jsstring_eqb. by rewrite bool_decide_eq_true. Qed.

Lemma jsstring_eqb_false (s t : jsstring) : jsstring_eqb s t = false <-> s <> t.
Proof. unfold jsstring_eqb. by rewrite bool_decide_eq_false. Qed.

Lemma has_text_trim (m : TextMessage) :
  has_text m = negb (jsstring_eqb (trim (text m)) []).
Proof.
  unfold has_text. destruct (trim (text m)) as [|c s]; [done|].
  by rewrite (proj2 (jsstring_eqb_false (c :: s) [])).
Qed.

Lemma is_string_spec (lit : string) (o : option JValue) :
  is_string lit o = true <-> o = Some (JStr (js lit)).
Proof.
  unfold is_string. destruct o as [[| | |s| |]|]; try (split; [done|congruence]).
  rewrite jsstring_eqb_true. split; [by intros ->|by intros [= ->]].
Qed.

(** ** Event extraction *)

Lemma map_outcome_returns {A B} (f : A -> Outcome B) (l : list A) :
  Forall (fun x => exists y, f x = Returns y) l ->
  exists ys, map_outcome f l = Returns ys /\ Forall2 (fun y x => f x = Returns y) ys l.
Proof.
  induction 1 as [|x l [y Hy] _ (ys & Hys & Hall)].
  - exists []. split; [done|constructor].
  - exists (y :: ys). cbn [map_outcome]. rewrite Hy, Hys. split; [done|].
    by constructor.
Qed.

Lemma Forall2_filter {A B} (R : A -> B -> Prop) (p : A -> bool) (q : B -> bool)
    (ys : list A) (xs : list B) :
  (forall y x, R y x -> p y = q x) ->
  Forall2 R ys xs -> Forall2 R (List.filter p ys) (List.filter q xs).
Proof.
  intros Hpq. induction 1 as [|y x ys xs Hyx _ IH]; [constructor|].
  cbn [List.filter]. rewrite (Hpq y x Hyx). destruct (q x); [by constructor|done].
Qed.

Lemma to_message_returns (e : JValue) :
  converts e ->
  exists m, to_message e = Returns m
    /\ event_text e = Returns (text m) /\ event_userId e = Returns (userId m).
Proof.
  intros [[s Hs] [u Hu]]. exists {| text := s; userId := u |}.
  unfold to_message. by rewrite Hs, Hu.
Qed.

Lemma to_message_inv (e : JValue) (m : TextMessage) :
  to_message e = Returns m ->
  event_text e = Returns (text m) /\ event_userId e = Returns (userId m).
Proof.
  unfold to_message. destruct (event_text e) as [s|]; [|done].
  destruct (event_userId e) as [u|]; [|done]. by intros [= <-].
Qed.

(** C8, as the code has it: when [String] succeeds on the text and the
    sender of every event of type "message" with message type "text", the
    extracted messages are exactly those of these events whose text is
    non-empty once trimmed, each with its text and sender, in the order of
    the event list; every other event is dropped.  The text of an event is
    the string it carries, the empty text when it carries none; the sender
    is the string it carries, none when that is absent or empty. *)
Theorem extraction_keeps_qualifying_events_in_order (payload : JValue) :
  Forall converts (List.filter is_text_event (events_of payload)) ->
  (exists msgs,
     textMessages_of payload = Returns msgs
     /\ Forall2 (fun m e => event_text e = Returns (text m)
                            /\ event_userId e = Returns (userId m))
          msgs (List.filter qualifies (events_of payload)))
  /\ (forall e, qualifies e = true <->
        get_prop "type" e = Some (JStr (js "message"))
        /\ get_prop_opt "type" (get_prop "message" e) = Some (JStr (js "text"))
        /\ exists s, event_text e = Returns s /\ trim s <> [])
  /\ (forall e s, get_prop_opt "text" (get_prop "message" e) = Some (JStr s) ->
        event_text e = Returns s)
  /\ (forall e, get_prop_opt "text" (get_prop "message" e) = None
                \/ get_prop_opt "text" (get_prop "message" e) = Some JNull ->
        event_text e = Returns [])
  /\ (forall e u, get_prop_opt "userId" (get_prop "source" e) = Some (JStr u) ->
        event_userId e = Returns (match u with [] => None | _ => Some u end))
  /\ (forall e, get_prop_opt "userId" (get_prop "source" e) = None ->
        event_userId e = Returns None).
Proof.
  intros Hconv. split; [|split; [|split; [|split; [|split]]]].
  - assert (Hall : Forall (fun e => exists m, to_message e = Returns m)
                     (List.filter is_text_event (events_of payload))).
    { eapply Forall_impl; [exact Hconv|]. intros e He.
      destruct (to_message_returns e He) as (m & Hm & _). eauto. }
    destruct (map_outcome_returns _ _ Hall) as (ys & Hys & Hpairs).
    exists (List.filter has_text ys). unfold textMessages_of. rewrite Hys.
    split; [done|].
    assert (Hq : List.filter qualifies (events_of payload)
                 = List.filter
                     (fun e => match event_text e with
                               | Returns s => negb (jsstring_eqb (trim s) [])
                               | Throws _ => false
                               end)
                     (List.filter is_text_event (events_of payload))).
    { rewrite filter_filter_and. done. }
    rewrite Hq. apply Forall2_filter.
    + intros m e [Ht _]. rewrite Ht. apply has_text_trim.
    + eapply Forall2_impl; [exact Hpairs|]. intros m e. apply to_message_inv.
  - intros e. unfold qualifies. rewrite !andb_true_iff, !is_string_spec.
    destruct (event_text e) as [s|err].
    + rewrite negb_true_iff, jsstring_eqb_false. split.
      * intros [[H1 H2] H3]. eauto.
      * intros (H1 & H2 & s' & [= <-] & H3). done.
    + split; [by intros [_ ?]|]. by intros (_ & _ & s & ? & _).
  - intros e s He. unfold event_text. by rewrite He.
  - intros e [He|He]; unfold event_text; by rewrite He.
  - intros e u He. unfold event_userId. rewrite He. by destruct u.
  - intros e He. unfold event_userId. by rewrite He.
Qed.

Lemma extraction_keeps_qualifying_events_in_order_witness :
  let payload := payload_of [text_event (js "hello"); image_event;
                             text_event (js "   "); JNull; text_event (js "world")] in
  exists msgs,
    textMessages_of payload = Returns msgs
    /\ map text msgs = [js "hello"; js "world"].
Proof.
  intros payload.
  assert (Hconv : Forall converts (List.filter is_text_event (events_of payload))).
  { repeat (constructor; [split; eexists; vm_compute; reflexivity|]). constructor. }
  destruct (extraction_keeps_qualifying_events_in_order payload Hconv)
    as ((msgs & Hmsgs & _) & _).
  exists msgs. split; [exact Hmsgs|].
  assert (Hrun : textMessages_of payload
                 = Returns [{| text := js "hello"; userId := None |};
                            {| text := js "world"; userId := None |}])
    by (vm_compute; reflexivity).
  rewrite Hrun in Hmsgs. injection Hmsgs as <-. reflexivity.
Defined.

(** C8 fails as stated: a whitespace-only text event whose sender is an
    object with a key toString is not dropped; the conversion of its sender
    throws, and the message "hello" before it is not extracted either. *)
Lemma extraction_stops_at_unconvertible_sender :
  let payload := payload_of [text_event (js "hello"); odd_sender_event] in
  map event_text (List.filter qualifies (events_of payload)) = [Returns (js "hello")]
  /\ qualifies odd_sender_event = false
  /\ textMessages_of payload = Throws cannot_convert.
Proof. by vm_compute. Qed.

Lemma starts_with_app (p r : jsstring) : starts_with p (p ++ r) = true.
Proof. induction p as [|a p IH]; simpl; [done|]. by rewrite N.eqb_refl. Qed.

Lemma starts_with_inv (p s : jsstring) :
  starts_with p s = true -> s = p ++ drop (length p) s.
Proof.
  revert s. induction p as [|a p IH]; intros [|b s]; simpl; try done.
  intros [Hab Hps]%andb_true_iff. apply N.eqb_eq in Hab as ->.
  f_equal. by apply IH.
Qed.

Lemma includes_app_r (s t p : jsstring) :
  includes t p = true -> includes (s ++ t) p = true.
Proof.
  intros H. induction s as [|c s IH]; [done|].
  simpl. rewrite IH. apply orb_true_r.
Qed.

Lemma includes_app_l (s t p : jsstring) :
  starts_with p s = true -> includes (s ++ t) p = true.
Proof.
  intros H. apply starts_with_inv in H. rewrite H, <- app_assoc.
  destruct (p ++ drop (length p) s ++ t) eqn:E; simpl.
  - destruct p; [done|discriminate].
  - rewrite <- E, starts_with_app. done.
Qed.

(** Where the pattern does not occur, [replaceAll] changes nothing,
    whatever the replacement. *)
Lemma replaceAll_scan_absent (p0 : N) (p' repl before s : jsstring) :
  includes s (p0 :: p') = false ->
  replaceAll_scan (p0 :: p') repl before O s = s.
Proof.
  revert before. induction s as [|c s IH]; intros before; [done|].
  cbn [includes]. intros [Hhere Hlater]%orb_false_iff.
  cbn [replaceAll_scan]. rewrite Hhere. f_equal. by apply IH.
Qed.

Lemma replaceAll_absent (p0 : N) (p' repl s : jsstring) :
  includes s (p0 :: p') = false -> replaceAll (p0 :: p') repl s = s.
Proof. apply replaceAll_scan_absent. Qed.

(** *** [replaceAll] with a non-empty pattern and a replacement without [$] *)

Lemma GetSubstitution_plain (matched before after repl : jsstring) :
  DOLLAR ∉ repl -> GetSubstitution matched before after repl = repl.
Proof.
  induction repl as [|c r IH]; [done|]. intros Hno.
  apply not_elem_of_cons in Hno as [Hc Hr].
  cbn [GetSubstitution]. destruct (c =? DOLLAR) eqn:E.
  - apply N.eqb_eq in E. congruence.
  - by rewrite IH.
Qed.

Section ReplaceAll.
Variables (p0 : N) (p' repl : jsstring).
Hypothesis repl_plain : DOLLAR ∉ repl.
Local Abbreviation pat := (p0 :: p').

Lemma replaceAll_scan_skip (before : jsstring) (k : nat) (s : jsstring) :
  replaceAll_scan pat repl before k s
  = replaceAll_scan pat repl (before ++ take k s) O (drop k s).
Proof.
  revert before s. induction k as [|k IH]; intros before s.
  - by rewrite take_0, drop_0, app_nil_r.
  - destruct s as [|c s]; simpl.
    + done.
    + rewrite IH. by rewrite <- app_assoc.
Qed.

Lemma replaceAll_scan_before (b1 b2 : jsstring) (s : jsstring) :
  replaceAll_scan pat repl b1 O s = replaceAll_scan pat repl b2 O s.
Proof.
  remember (length s) as n eqn:Hn. revert b1 b2 s Hn.
  induction (lt_wf n) as [n _ IH]. intros b1 b2 [|c s] Hn; [done|].
  cbn [replaceAll_scan]. destruct (starts_with pat (c :: s)).
  - rewrite !GetSubstitution_plain by done. f_equal.
    rewrite (replaceAll_scan_skip (b1 ++ [c])), (replaceAll_scan_skip (b2 ++ [c])).
    apply (IH (length (drop (length p') s))); [|done].
    rewrite length_drop. subst n. simpl. lia.
  - f_equal. apply (IH (length s)); [subst n; simpl; lia|done].
Qed.

Lemma replaceAll_nil : replaceAll pat repl [] = [].
Proof. done. Qed.

Lemma replaceAll_match (s : jsstring) :
  starts_with pat s = true ->
  replaceAll pat repl s = repl ++ replaceAll pat repl (drop (length pat) s).
Proof.
  intros H. unfold replaceAll. destruct s as [|c s]; [done|].
  cbn [replaceAll_scan]. rewrite H, GetSubstitution_plain by done.
  f_equal. rewrite replaceAll_scan_skip. cbn [length drop].
  apply replaceAll_scan_before.
Qed.

Lemma replaceAll_no_match (c : N) (s : jsstring) :
  starts_with pat (c :: s) = false ->
  replaceAll pat repl (c :: s) = c :: replaceAll pat repl s.
Proof.
  intros H. unfold replaceAll. cbn [replaceAll_scan]. rewrite H.
  f_equal. apply replaceAll_scan_before.
Qed.

Lemma replaceAll_app_match (r : jsstring) :
  replaceAll pat repl (pat ++ r) = repl ++ replaceAll pat repl r.
Proof.
  rewrite replaceAll_match by apply starts_with_app.
  by rewrite drop_app_length.
Qed.

(** A stretch of text without the first code unit of the pattern is
    copied. *)
Lemma replaceAll_copy (v s : jsstring) :
  p0 ∉ v -> replaceAll pat repl (v ++ s) = v ++ replaceAll pat repl s.
Proof.
  induction v as [|c v IH]; [done|]. intros [Hc Hv]%not_elem_of_cons.
  simpl. rewrite replaceAll_no_match, IH; [done..|].
  simpl. by rewrite (proj2 (N.eqb_neq p0 c)).
Qed.

(** A word that is read at the start of the result and that avoids the
    first code unit of the replacement was already there in the input. *)
Lemma starts_with_replaceAll (v0 : N) (v' w s : jsstring) :
  repl = v0 :: v' -> v0 ∉ w ->
  starts_with w (replaceAll pat repl s) = true -> starts_with w s = true.
Proof.
  intros Hrepl. revert s. induction w as [|a w IH]; [done|].
  intros s [Ha Hw]%not_elem_of_cons H. destruct s as [|c s]; [done|].
  destruct (starts_with pat (c :: s)) eqn:E.
  - rewrite replaceAll_match, Hrepl in H by done. simpl in H.
    apply andb_true_iff in H as [H _]. apply N.eqb_eq in H. congruence.
  - rewrite replaceAll_no_match in H by done. simpl in H |- *.
    apply andb_true_iff in H as [-> H]. apply IH; done.
Qed.
End ReplaceAll.

(** ** Rendering the block *)

Lemma dollar_not_in_LF : DOLLAR ∉ [LF].
Proof. intros H%list_elem_of_singleton. discriminate H. Qed.

Lemma normalize_by_replaceAll (s : jsstring) :
  replaceAll [CR] [LF] (replaceAll [CR; LF] [LF] s) = normalize_newlines s.
Proof.
  remember (length s) as n eqn:Hn. revert s Hn.
  induction (lt_wf n) as [n _ IH]. intros [|c s] Hn; [done|].
  assert (Hs : replaceAll [CR] [LF] (replaceAll [CR; LF] [LF] s)
               = normalize_newlines s).
  { apply (IH (length s)); [subst n; simpl; lia|done]. }
  cbn [normalize_newlines]. destruct (c =? CR) eqn:Ec.
  - apply N.eqb_eq in Ec as ->. destruct s as [|d s'].
    + done.
    + destruct (d =? LF) eqn:Ed.
      * apply N.eqb_eq in Ed as ->.
        rewrite (replaceAll_match CR [LF] [LF] dollar_not_in_LF) by done.
        cbn [length drop app]. rewrite ?drop_0.
        rewrite (replaceAll_no_match CR [] [LF] dollar_not_in_LF LF) by done.
        f_equal.
        apply (IH (length s')); [subst n; simpl; lia|done].
      * rewrite (replaceAll_no_match CR [LF] [LF] dollar_not_in_LF CR (d :: s'))
          by (cbn [starts_with]; rewrite (N.eqb_sym LF d), Ed; by destruct (CR =? CR)).
        rewrite (replaceAll_match CR [] [LF] dollar_not_in_LF) by done.
        cbn [length drop app]. by rewrite drop_0, Hs.
  - rewrite (replaceAll_no_match CR [LF] [LF] dollar_not_in_LF c s)
      by (cbn [starts_with]; by rewrite (N.eqb_sym CR c), Ec).
    rewrite (replaceAll_no_match CR [] [LF] dollar_not_in_LF c)
      by (cbn [starts_with]; by rewrite (N.eqb_sym CR c), Ec).
    by rewrite Hs.
Qed.

Lemma leading_newlines_stop (x y : jsstring) (c : N) :
  c <> LF -> leading_newlines (x ++ c :: y) = leading_newlines x.
Proof.
  intros Hc. induction x as [|a x IH]; simpl.
  - by rewrite (proj2 (N.eqb_neq c LF)).
  - destruct (a =? LF); [by rewrite IH|done].
Qed.

Lemma trailing_newlines_after (x y : jsstring) (c : N) :
  c <> LF -> trailing_newlines (x ++ c :: y) = trailing_newlines y.
Proof.
  intros Hc. unfold trailing_newlines.
  rewrite rev_app_distr. simpl. rewrite <- app_assoc. simpl.
  by apply leading_newlines_stop.
Qed.

Lemma trailing_newlines_snoc (x : jsstring) :
  trailing_newlines (x ++ [LF]) = S (trailing_newlines x).
Proof. unfold trailing_newlines. by rewrite rev_app_distr. Qed.

Lemma join_snoc (sep : jsstring) (l : list jsstring) (x : jsstring) :
  exists before, join sep (l ++ [x]) = before ++ x.
Proof.
  induction l as [|y l [before IH]]; [by exists []|].
  exists (y ++ sep ++ before). simpl. rewrite IH.
  destruct (l ++ [x]) eqn:E; [by destruct l|].
  by rewrite <- !app_assoc.
Qed.

Lemma render_line_normalized (t : TimeParts) (m : TextMessage) :
  render_line t m
  = js "- " ++ HH t ++ js ":" ++ MM t ++ js " " ++ normalize_newlines (text m).
Proof.
  unfold render_line. rewrite normalize_by_replaceAll. by rewrite <- !app_assoc.
Qed.

(** C7, as the code has it: each message becomes [- HH:MM text] with CR LF
    and lone CR of the text made LF; the lines are joined with LF and one
    LF is added after them, so the block ends with one newline more than the
    text of the last message does; ["hello"; "world"] at 14:03 give
    ["- 14:03 hello\n- 14:03 world\n"]. *)
Theorem block_is_lines_joined_plus_newline (t : TimeParts) :
  (forall m, render_line t m
     = js "- " ++ HH t ++ js ":" ++ MM t ++ js " " ++ normalize_newlines (text m))
  /\ (forall msgs, entry_of t msgs = join [LF] (map (render_line t) msgs) ++ [LF])
  /\ (forall msgs m,
        trailing_newlines (entry_of t (msgs ++ [m]))
        = S (trailing_newlines (normalize_newlines (text m))))
  /\ outcome_map (entry_of example_time)
       (textMessages_of (payload_of [text_event (js "hello"); text_event (js "world")]))
     = Returns (js "- 14:03 hello" ++ [LF] ++ js "- 14:03 world" ++ [LF]).
Proof.
  split; [apply render_line_normalized|].
  split; [done|]. split; [|by vm_compute].
  intros msgs m. unfold entry_of. rewrite map_app. simpl.
  destruct (join_snoc [LF] (map (render_line t) msgs) (render_line t m))
    as [before ->].
  rewrite trailing_newlines_snoc. f_equal.
  rewrite render_line_normalized.
  change (js " ") with [32].
  rewrite !app_assoc. rewrite <- (app_assoc _ [32]). simpl.
  by apply trailing_newlines_after.
Qed.

(** C7 fails as stated: the text of a message is kept untrimmed, so a text
    ending with a line break gives a block that ends with two newlines. *)
Lemma block_with_two_trailing_newlines :
  let msgs := [{| text := js "hello" ++ [LF]; userId := None |}] in
  textMessages_of (payload_of [text_event (js "hello" ++ [LF])]) = Returns msgs
  /\ map text msgs = [js "hello" ++ [LF]]
  /\ entry_of example_time msgs = js "- 14:03 hello" ++ [LF; LF]
  /\ trailing_newlines (entry_of example_time msgs) <> 1%nat.
Proof. by vm_compute. Qed.

(** ** Signature verification *)


Lemma utf8_encode_ascii (s : jsstring) : ascii_only s -> utf8_encode s = s.
Proof.
  induction 1 as [|c s Hc _ IH]; [done|].
  simpl. rewrite (proj2 (N.ltb_lt c 0x80) Hc). by rewrite IH.
Qed.

(** Only ASCII text has an ASCII encoding: every other code unit gives an
    octet of 0x80 or more. *)
Lemma utf8_encode_ascii_inv (s : jsstring) :
  ascii_only (utf8_encode s) -> utf8_encode s = s.
Proof.
  induction s as [|c s IH]; [done|]. cbn [utf8_encode].
  destruct (c <? 0x80) eqn:E1.
  { intros H. inversion H; subst. by rewrite IH. }
  intros H. exfalso.
  assert (Hhead : forall k x bs, 0x80 <= k -> ascii_only (k + x :: bs) -> False).
  { intros k x bs Hk Hb. inversion Hb; subst. lia. }
  assert (Hrepl : forall bs, ascii_only (utf8_replacement ++ bs) -> False).
  { intros bs Hb. inversion Hb; subst. lia. }
  destruct (c <? 0x800).
  { by apply (Hhead 0xC0) in H. }
  destruct (is_high_surrogate c).
  - destruct s as [|d s'].
    + by apply (Hrepl []) in H.
    + destruct (is_low_surrogate d); [|by apply Hrepl in H].
      by apply (Hhead 0xF0) in H.
  - destruct (is_low_surrogate c); [by apply Hrepl in H|].
    by apply (Hhead 0xE0) in H.
Qed.

Lemma base64_digit_ascii (i : N) : base64_digit i < 0x80.
Proof.
  unfold base64_digit.
  destruct (i <? 26) eqn:E1; [apply N.ltb_lt in E1; lia|].
  destruct (i <? 52) eqn:E2; [apply N.ltb_lt in E2; lia|].
  destruct (i <? 62) eqn:E3; [apply N.ltb_lt in E3; lia|].
  destruct (i =? 62); lia.
Qed.

Lemma base64_encode_ascii (bs : buffer) : ascii_only (base64_encode bs).
Proof.
  remember (length bs) as n eqn:Hn. revert bs Hn.
  induction (lt_wf n) as [n _ IH].
  assert (Hpad : PAD < 0x80) by done.
  intros [|a [|b [|c rest]]] Hn; cbn [base64_encode].
  - constructor.
  - repeat (constructor; [first [apply base64_digit_ascii | exact Hpad]|]).
    constructor.
  - repeat (constructor; [first [apply base64_digit_ascii | exact Hpad]|]).
    constructor.
  - repeat (constructor; [apply base64_digit_ascii|]).
    apply (IH (length rest)); [subst n; simpl; lia|done].
Qed.

Lemma hmac_length (key msg : buffer) : length (SHA256.hmac key msg) = 32%nat.
Proof. done. Qed.

Lemma hmac_b64_nonempty (rawBody channelSecret : jsstring) :
  exists c s, hmac_b64 rawBody channelSecret = c :: s.
Proof.
  unfold hmac_b64.
  pose proof (hmac_length (utf8_encode channelSecret) (utf8_encode rawBody)) as Hlen.
  destruct (SHA256.hmac _ _) as [|a [|b [|c rest]]]; try done.
  cbn [base64_encode]. eauto.
Qed.

(** With a header that is present and not empty, the verifier compares the
    two encodings; the length test only guards [timingSafeEqual]. *)
Lemma verifyLineSignature_compares (rawBody header channelSecret : jsstring) :
  header <> [] ->
  verifyLineSignature rawBody (Some header) channelSecret
  = Returns (bool_decide (utf8_encode (hmac_b64 rawBody channelSecret)
                          = utf8_encode header)).
Proof.
  intros Hne. unfold verifyLineSignature, timingSafeEqual.
  destruct header as [|c s]; [done|].
  generalize (utf8_encode (hmac_b64 rawBody channelSecret)) as a.
  generalize (utf8_encode (c :: s)) as b. intros b a.
  destruct (length a =? length b)%nat eqn:El; cbn [negb]; [done|].
  rewrite bool_decide_eq_false_2; [done|].
  intros ->. by rewrite Nat.eqb_refl in El.
Qed.

Lemma verifyLineSignature_returns (rawBody : jsstring) (header : option jsstring)
    (channelSecret : jsstring) :
  exists b, verifyLineSignature rawBody header channelSecret = Returns b.
Proof.
  destruct header as [header|]; [|by exists false].
  destruct (decide (header = [])) as [->|Hne]; [by exists false|].
  rewrite verifyLineSignature_compares by done. eauto.
Qed.

Lemma verifyLineSignature_true_iff (rawBody : jsstring) (header : option jsstring)
    (channelSecret : jsstring) :
  verifyLineSignature rawBody header channelSecret = Returns true
  <-> header = Some (hmac_b64 rawBody channelSecret).
Proof.
  pose proof (hmac_b64_nonempty rawBody channelSecret) as (c0 & s0 & Hsig).
  assert (Hascii : ascii_only (hmac_b64 rawBody channelSecret))
    by apply base64_encode_ascii.
  destruct header as [header|]; [|split; intros [=]].
  destruct (decide (header = [])) as [->|Hne].
  { rewrite Hsig. split; intros [=]. }
  rewrite verifyLineSignature_compares, (utf8_encode_ascii _ Hascii) by done.
  split.
  - intros Hdec. assert (Heq : hmac_b64 rawBody channelSecret = utf8_encode header).
    { apply (bool_decide_eq_true_1 _). congruence. }
    f_equal. rewrite Heq. symmetry. apply utf8_encode_ascii_inv. by rewrite <- Heq.
  - intros Heq. assert (Heq' : header = hmac_b64 rawBody channelSecret) by congruence.
    rewrite Heq', (utf8_encode_ascii _ Hascii). by rewrite bool_decide_eq_true_2.
Qed.

(** C2: the base64 HMAC-SHA256 of the body under the secret verifies; any
    other header value, an absent header included, does not; and the
    verifier returns for all inputs, it never throws. *)
Theorem signature_verification (rawBody channelSecret : jsstring) :
  verifyLineSignature rawBody (Some (hmac_b64 rawBody channelSecret)) channelSecret
  = Returns true
  /\ (forall header, header <> Some (hmac_b64 rawBody channelSecret) ->
        verifyLineSignature rawBody header channelSecret = Returns false)
  /\ (forall header, exists b,
        verifyLineSignature rawBody header channelSecret = Returns b).
Proof.
  split; [by apply (proj2 (verifyLineSignature_true_iff _ _ _))|].
  split; [|intros header; apply verifyLineSignature_returns].
  intros header Hne.
  destruct (verifyLineSignature_returns rawBody header channelSecret) as [[] Hb];
    [|done].
  by apply (proj1 (verifyLineSignature_true_iff _ _ _)) in Hb.
Qed.

Lemma signature_verification_witness :
  let body := js "{}" in
  let secret := js "secret" in
  verifyLineSignature body (Some (hmac_b64 body secret)) secret = Returns true
  /\ verifyLineSignature body None secret = Returns false
  /\ verifyLineSignature body (Some (js "AAAA")) secret = Returns false
  /\ verifyLineSignature body (Some (hmac_b64 (js "{ }") secret)) secret = Returns false.
Proof.
  intros body secret.
  destruct (signature_verification body secret) as (Hok & Hbad & _).
  split; [exact Hok|]. split; [by apply Hbad|].
  split; apply Hbad; by vm_compute.
Defined.

(** ** Path resolution *)

Lemma diverge_starts_with (p t x : jsstring) :
  diverge p t = true -> starts_with p (t ++ x) = false.
Proof.
  revert t. induction p as [|a p IH]; intros [|b t]; simpl; try done.
  destruct (a =? b); simpl; [apply IH|done].
Qed.

Lemma inert_head (v : jsstring) :
  inert v -> exists v0 v', v = v0 :: v' /\ inert_char v0 = true.
Proof.
  intros [Hne Hall]. destruct v as [|v0 v']; [done|].
  simpl in Hall. apply andb_true_iff in Hall as [H0 _]. eauto.
Qed.

Lemma inert_not_elem (v : jsstring) (c : N) :
  inert v -> inert_char c = false -> c ∉ v.
Proof.
  intros [_ Hall] Hc Hin. rewrite forallb_forall in Hall.
  apply list_elem_of_In, Hall in Hin. congruence.
Qed.

Lemma letters_not_elem (letters : jsstring) (c : N) :
  forallb (fun c => negb (inert_char c) && negb (c =? OPEN)) letters = true ->
  inert_char c = true \/ c = OPEN -> c ∉ letters.
Proof.
  intros Hall Hc Hin. rewrite forallb_forall in Hall.
  apply list_elem_of_In, Hall in Hin.
  apply andb_true_iff in Hin as [H1%negb_true_iff H2%negb_true_iff].
  destruct Hc as [Hc| ->]; [congruence|]. by rewrite N.eqb_refl in H2.
Qed.

Lemma good_table_cons (name val : jsstring) (rest : list (jsstring * jsstring)) :
  good_table ((name, val) :: rest) ->
  exists letters, name = OPEN :: letters
    /\ forallb (fun c => negb (inert_char c) && negb (c =? OPEN)) letters = true
    /\ inert val
    /\ Forall (fun e' => diverge name (fst e') = true) rest
    /\ good_table rest.
Proof. intros ((letters & Hn & Hl) & Hv & Hd & Hg). simpl in *. eauto 10. Qed.

Lemma good_table_app (pre post : list (jsstring * jsstring)) :
  good_table (pre ++ post) -> good_table pre /\ good_table post.
Proof.
  induction pre as [|e pre IH]; simpl; [done|].
  intros (Hn & Hv & Hd & Hg). apply Forall_app in Hd as [Hd _].
  destruct (IH Hg). done.
Qed.

Lemma good_table_diverge (pre post : list (jsstring * jsstring)) (e : jsstring * jsstring) :
  good_table (pre ++ e :: post) ->
  Forall (fun e' => diverge (fst e') (fst e) = true) pre.
Proof.
  induction pre as [|e' pre IH]; simpl; [done|].
  intros (_ & _ & Hd & Hg). apply Forall_cons. split; [|by apply IH].
  apply Forall_app in Hd as [_ Hd]. by inversion Hd.
Qed.

Lemma passes_cons (e : jsstring * jsstring) (table : list (jsstring * jsstring))
    (s : jsstring) :
  passes (e :: table) s = passes table (replaceAll (fst e) (snd e) s).
Proof. done. Qed.

Lemma passes_app (pre post : list (jsstring * jsstring)) (s : jsstring) :
  passes (pre ++ post) s = passes post (passes pre s).
Proof. apply fold_left_app. Qed.

Lemma passes_nil (table : list (jsstring * jsstring)) :
  good_table table -> passes table [] = [].
Proof.
  induction table as [|[name v] table IH]; [done|].
  intros (letters & -> & _ & _ & _ & Hg)%good_table_cons. by apply IH.
Qed.

Lemma passes_copy (table : list (jsstring * jsstring)) (v s : jsstring) :
  good_table table -> OPEN ∉ v -> passes table (v ++ s) = v ++ passes table s.
Proof.
  revert s. induction table as [|[name val] table IH]; [done|].
  intros s (letters & -> & _ & Hval & _ & Hg)%good_table_cons Hv.
  rewrite !passes_cons. cbn [fst snd].
  rewrite replaceAll_copy; [by apply IH| |done].
  by apply inert_not_elem.
Qed.

(** A name in braces that every entry of the table diverges from is
    copied. *)
Lemma passes_token (table : list (jsstring * jsstring)) (letters s : jsstring) :
  good_table table -> OPEN ∉ letters ->
  Forall (fun e => diverge (fst e) (OPEN :: letters) = true) table ->
  passes table ((OPEN :: letters) ++ s) = (OPEN :: letters) ++ passes table s.
Proof.
  revert s. induction table as [|[name val] table IH]; [done|].
  intros s (letters' & -> & _ & Hval & _ & Hg)%good_table_cons Hl Hd.
  apply Forall_cons in Hd as [Hd Hds]. cbn [fst] in Hd.
  rewrite !passes_cons. cbn [fst snd].
  assert (Hplain : DOLLAR ∉ val) by by apply inert_not_elem.
  change ((OPEN :: letters) ++ s) with (OPEN :: (letters ++ s)).
  rewrite replaceAll_no_match; [|done|].
  - rewrite replaceAll_copy by done. by apply IH.
  - change (OPEN :: letters ++ s) with ((OPEN :: letters) ++ s).
    by apply diverge_starts_with.
Qed.

Lemma passes_hit (pre post : list (jsstring * jsstring)) (name val r : jsstring) :
  good_table (pre ++ (name, val) :: post) ->
  passes (pre ++ (name, val) :: post) (name ++ r)
  = val ++ passes (pre ++ (name, val) :: post) r.
Proof.
  intros Hg. pose proof (good_table_diverge _ _ _ Hg) as Hd.
  apply good_table_app in Hg as [Hpre Hpost].
  apply good_table_cons in Hpost as (letters & -> & Hletters & Hval & _ & Hpost).
  assert (Hplain : DOLLAR ∉ val) by by apply inert_not_elem.
  rewrite !passes_app, !passes_cons. cbn [fst snd] in *.
  rewrite passes_token; [|done| |done].
  - rewrite replaceAll_app_match by done.
    apply passes_copy; [done|]. by apply inert_not_elem.
  - apply letters_not_elem; [done|by right].
Qed.

Lemma passes_miss (table : list (jsstring * jsstring)) (s : jsstring) :
  good_table table ->
  (forall e, e ∈ table -> starts_with (fst e) (OPEN :: s) = false) ->
  passes table (OPEN :: s) = OPEN :: passes table s.
Proof.
  revert s. induction table as [|[name val] table IH]; [done|].
  intros s (letters & -> & Hletters & Hval & _ & Hg)%good_table_cons Hmiss.
  assert (Hplain : DOLLAR ∉ val) by by apply inert_not_elem.
  destruct (inert_head _ Hval) as (v0 & v' & Hv & Hv0).
  rewrite !passes_cons. cbn [fst snd].
  rewrite replaceAll_no_match; [|done|].
  2:{ apply (Hmiss (OPEN :: letters, val)). apply list_elem_of_here. }
  apply IH; [done|]. intros [name' val'] Hin. cbn [fst].
  assert (Hn : placeholder_name name').
  { clear -Hg Hin. induction table as [|e table IH]; [by inversion Hin|].
    destruct Hg as (Hn & _ & _ & Hg).
    apply elem_of_cons in Hin as [<-|Hin]; [done|by apply IH]. }
  destruct Hn as (letters' & -> & Hletters').
  destruct (starts_with (OPEN :: letters') (OPEN :: replaceAll _ _ _)) eqn:E; [|done].
  cbn [starts_with] in E. rewrite N.eqb_refl in E. cbn [andb] in E.
  apply (starts_with_replaceAll OPEN letters val Hplain v0 v') in E; [|done|].
  - specialize (Hmiss (OPEN :: letters', val')). cbn [fst] in Hmiss.
    rewrite <- Hmiss; [|by apply list_elem_of_further].
    cbn [starts_with]. by rewrite N.eqb_refl, E.
  - apply letters_not_elem; [done|by left].
Qed.

Lemma substitute_skip (table : list (jsstring * jsstring)) (k : nat) (s : jsstring) :
  substitute table k s = substitute table O (drop k s).
Proof.
  revert s. induction k as [|k IH]; intros [|c s]; try done. simpl. apply IH.
Qed.

Lemma passes_substitute (table : list (jsstring * jsstring)) (s : jsstring) :
  good_table table -> passes table s = substitute table O s.
Proof.
  intros Hg. remember (length s) as n eqn:Hn. revert s Hn.
  induction (lt_wf n) as [n _ IH]. intros [|c s] Hn.
  { by apply passes_nil. }
  cbn [substitute].
  destruct (List.find _ table) as [[name val]|] eqn:Hfind.
  - apply find_some in Hfind as [Hin Hstart]. cbn [fst] in Hstart.
    apply list_elem_of_In, list_elem_of_split in Hin as (pre & post & ->).
    assert (Hname : exists letters, name = OPEN :: letters).
    { apply good_table_app in Hg as [_ (letters & -> & _)%good_table_cons]. eauto. }
    destruct Hname as (letters & ->).
    rewrite (starts_with_inv _ _ Hstart) at 1.
    rewrite passes_hit by done. f_equal.
    rewrite substitute_skip. cbn [length drop].
    replace (S (length letters) - 1)%nat with (length letters) by lia.
    apply (IH (length (drop (length letters) s))); [|done].
    rewrite length_drop. subst n. simpl. lia.
  - assert (Hmiss : forall e, e ∈ table -> starts_with (fst e) (c :: s) = false).
    { intros e He. apply list_elem_of_In in He.
      by apply (find_none _ _ Hfind) in He. }
    assert (Hs : passes table s = substitute table O s).
    { apply (IH (length s)); [subst n; simpl; lia|done]. }
    destruct (decide (c = OPEN)) as [->|Hc].
    + rewrite passes_miss by done. by rewrite Hs.
    + change (c :: s) with ([c] ++ s).
      rewrite passes_copy; [by rewrite Hs|done|].
      apply not_elem_of_cons. split; [done|apply not_elem_of_nil].
Qed.

Lemma decimal_inert (s : jsstring) : decimal s -> inert s.
Proof.
  intros [Hne Hall]. split; [done|].
  rewrite forallb_forall in Hall |- *. intros c Hc.
  unfold inert_char. by rewrite (Hall c Hc).
Qed.

Lemma inert_app (s t : jsstring) : inert s -> inert t -> inert (s ++ t).
Proof.
  intros [Hs1 Hs2] [Ht1 Ht2]. split; [by destruct s|].
  by rewrite forallb_app, Hs2, Ht2.
Qed.

Lemma placeholders_good (p : TimeParts) :
  calendar_fields_decimal p -> good_table (placeholders p).
Proof.
  intros (Hy & Hyy & Hm & Hd & Hdate).
  assert (Hdash : inert (js "-")) by by split.
  assert (inert (date p)).
  { rewrite Hdate. repeat apply inert_app; auto using decimal_inert. }
  unfold placeholders. cbn [good_table fst snd].
  repeat match goal with
         | |- _ /\ _ => split
         | |- placeholder_name _ => eexists; split; [reflexivity|by vm_compute]
         | |- inert _ => by auto using decimal_inert
         | |- Forall _ _ => repeat (constructor; [by vm_compute|]); constructor
         | |- True => exact I
         end.
Qed.

Lemma decimal_slice_last (n : nat) (s : jsstring) :
  (0 < n)%nat -> decimal s -> decimal (slice_last n s).
Proof.
  intros Hn [Hne Hall]. unfold slice_last. split.
  - intros Hnil. apply (f_equal length) in Hnil. rewrite length_drop in Hnil.
    destruct s; [done|]. simpl in Hnil. lia.
  - rewrite forallb_forall in Hall |- *. intros c Hc. apply Hall.
    apply list_elem_of_In. apply list_elem_of_In in Hc.
    by apply (subseteq_drop (length s - n) s).
Qed.

(** The time parts the handler computes have decimal calendar fields when
    the clock gives decimal year, month and day parts. *)
Lemma formatTokyoParts_decimal (parts : list (string * jsstring)) (y m d : jsstring) :
  List.find (fun p => String.eqb (fst p) "year") parts = Some ("year"%string, y) ->
  List.find (fun p => String.eqb (fst p) "month") parts = Some ("month"%string, m) ->
  List.find (fun p => String.eqb (fst p) "day") parts = Some ("day"%string, d) ->
  decimal y -> decimal m -> decimal d ->
  calendar_fields_decimal (formatTokyoParts parts).
Proof.
  intros Hy Hm Hd Dy Dm Dd. unfold calendar_fields_decimal, formatTokyoParts.
  cbn [yyyy yy mm dd date]. rewrite Hy, Hm, Hd. simpl.
  split; [done|]. split; [apply decimal_slice_last; [lia|done]|].
  by repeat (split; [done|]).
Qed.

Lemma buildNotePath_without_placeholders (template : jsstring) (p : TimeParts) :
  (forall e, e ∈ placeholders p -> includes template (fst e) = false) ->
  buildNotePath template p = template.
Proof.
  intros Habsent. unfold buildNotePath.
  assert (H1 : includes template (js "{yyyy}") = false).
  { apply (Habsent (js "{yyyy}", yyyy p)). unfold placeholders. set_solver. }
  assert (H2 : includes template (js "{yy}") = false).
  { apply (Habsent (js "{yy}", yy p)). unfold placeholders. set_solver. }
  assert (H3 : includes template (js "{mm}") = false).
  { apply (Habsent (js "{mm}", mm p)). unfold placeholders. set_solver. }
  assert (H4 : includes template (js "{dd}") = false).
  { apply (Habsent (js "{dd}", dd p)). unfold placeholders. set_solver. }
  assert (H5 : includes template (js "{date}") = false).
  { apply (Habsent (js "{date}", date p)). unfold placeholders. set_solver. }
  rewrite (replaceAll_absent OPEN (js "yyyy}") _ _ H1).
  rewrite (replaceAll_absent OPEN (js "yy}") _ _ H2).
  rewrite (replaceAll_absent OPEN (js "mm}") _ _ H3).
  rewrite (replaceAll_absent OPEN (js "dd}") _ _ H4).
  apply (replaceAll_absent OPEN (js "date}") _ _ H5).
Qed.

(** C9: for time parts with decimal calendar fields, the path is the
    template with every occurrence of {yyyy} {yy} {mm} {dd} {date} replaced
    by its field in one pass from left to right, repeated occurrences
    included, and everything else, other tokens in braces included, copied;
    a template without these five placeholders is returned as it is;
    "{yyyy}/{mm}/{dd}.md" gives "2026/01/02.md" and "{date}.md" gives
    "2026-01-02.md". *)
Theorem buildNotePath_substitutes_placeholders (template : jsstring) (p : TimeParts) :
  calendar_fields_decimal p ->
  buildNotePath template p = resolve_placeholders template p
  /\ ((forall e, e ∈ placeholders p -> includes template (fst e) = false) ->
      buildNotePath template p = template)
  /\ buildNotePath (js "{yyyy}/{mm}/{dd}.md") example_time = js "2026/01/02.md"
  /\ buildNotePath (js "{date}.md") example_time = js "2026-01-02.md".
Proof.
  intros Hp. split; [|split; [apply buildNotePath_without_placeholders|by vm_compute]].
  unfold resolve_placeholders. rewrite <- passes_substitute by by apply placeholders_good.
  done.
Qed.

(** ** Running the handler *)

Lemma requireEnv_set (w : World) (name : string) (v : jsstring) (tr : list Event) :
  env w !! name = Some v -> v <> [] ->
  requireEnv w name tr = (Returns v, tr ++ [EvEnv name]).
Proof.
  intros Hv Hne. unfold requireEnv, getenv, bind, emit, ret. rewrite Hv.
  by destruct v.
Qed.

Lemma requireEnv_unset (w : World) (name : string) (tr : list Event) :
  env w !! name = None ->
  requireEnv w name tr
  = (Throws (new_Error (js "Missing env: " ++ js name)), tr ++ [EvEnv name]).
Proof. intros Hv. unfold requireEnv, getenv, bind, emit, ret. by rewrite Hv. Qed.

Lemma env_or_returns (w : World) (name : string) (fallback : jsstring) (tr : list Event) :
  exists v, env_or w name fallback tr = (Returns v, tr ++ [EvEnv name]).
Proof.
  unfold env_or, getenv, bind, emit, ret.
  destruct (env w !! name) as [[|c s]|]; eauto.
Qed.

Lemma not_GET (request : Request) :
  request_method request <> js "GET" ->
  jsstring_eqb (request_method request) (js "GET") = false.
Proof. intros H. by apply jsstring_eqb_false. Qed.

(** A POST that passes verification and parses: the handler up to the point
    where it looks at the text messages. *)
Lemma handler_verified (w : World) (request : Request) (secret : jsstring)
    (payload : JValue) (tr : list Event) :
  request_method request <> js "GET" ->
  env w !! "LINE_CHANNEL_SECRET"%string = Some secret -> secret <> [] ->
  verifyLineSignature (request_text request)
    (request_headers request !! js "x-line-signature") secret = Returns true ->
  JSON_parse w (request_text request) = Returns payload ->
  textMessages_of payload = Returns [] ->
  handler w request tr
  = (Returns noop_response, tr ++ [EvEnv "LINE_CHANNEL_SECRET"%string]).
Proof.
  intros Hpost Hsecret Hne Hverify Hparse Hnone.
  unfold handler. rewrite (not_GET _ Hpost).
  unfold bind at 1. rewrite (requireEnv_set _ _ _ _ Hsecret Hne).
  unfold bind, lift. rewrite Hverify. cbn [negb]. rewrite Hparse, Hnone.
  done.
Qed.

(** A POST that passes verification and parses, with an event whose text or
    sender [String] cannot convert: the handler throws what the conversion
    throws. *)
Lemma handler_extraction_throws (w : World) (request : Request) (secret : jsstring)
    (payload : JValue) (e : JSError) (tr : list Event) :
  request_method request <> js "GET" ->
  env w !! "LINE_CHANNEL_SECRET"%string = Some secret -> secret <> [] ->
  verifyLineSignature (request_text request)
    (request_headers request !! js "x-line-signature") secret = Returns true ->
  JSON_parse w (request_text request) = Returns payload ->
  textMessages_of payload = Throws e ->
  handler w request tr = (Throws e, tr ++ [EvEnv "LINE_CHANNEL_SECRET"%string]).
Proof.
  intros Hpost Hsecret Hne Hverify Hparse Hthrows.
  unfold handler. rewrite (not_GET _ Hpost).
  unfold bind at 1. rewrite (requireEnv_set _ _ _ _ Hsecret Hne).
  unfold bind, lift. rewrite Hverify. cbn [negb]. rewrite Hparse, Hthrows.
  done.
Qed.

Lemma env_or_run (w : World) (name : string) (fallback : jsstring) (tr : list Event) :
  env_or w name fallback tr = (Returns (env_text w name fallback), tr ++ [EvEnv name]).
Proof.
  unfold env_or, env_text, getenv, bind, emit, ret.
  by destruct (env w !! name) as [[|c s]|].
Qed.

(** A POST that passes verification, parses and carries a text message, with
    the token set: the handler reads its configuration and runs the loop. *)
Lemma handler_appends (w : World) (request : Request) (secret token : jsstring)
    (payload : JValue) (msgs : list TextMessage) (tr : list Event) :
  request_method request <> js "GET" ->
  env w !! "LINE_CHANNEL_SECRET"%string = Some secret -> secret <> [] ->
  verifyLineSignature (request_text request)
    (request_headers request !! js "x-line-signature") secret = Returns true ->
  JSON_parse w (request_text request) = Returns payload ->
  textMessages_of payload = Returns msgs -> msgs <> [] ->
  env w !! "GITHUB_TOKEN"%string = Some token -> token <> [] ->
  handler w request tr = append_and_finish w token msgs (tr ++ config_reads).
Proof.
  intros Hpost Hsecret Hne Hverify Hparse Hmsgs Hsome Htoken Hne'.
  unfold handler. rewrite (not_GET _ Hpost).
  unfold bind at 1. rewrite (requireEnv_set _ _ _ _ Hsecret Hne).
  unfold bind at 1, lift. rewrite Hverify. cbn [negb]. rewrite Hparse.
  unfold bind at 1. rewrite Hmsgs.
  destruct msgs as [|m ms]; [done|].
  cbn [length Nat.eqb].
  unfold bind at 1. rewrite (requireEnv_set _ _ _ _ Htoken Hne').
  do 4 (unfold bind at 1; rewrite env_or_run).
  unfold append_and_finish, config_reads.
  by rewrite <- !app_assoc.
Qed.

(** ** The store client *)

Lemma getGitHubFile_trace (w : World) (owner repo path branch token o r b : jsstring)
    (tr : list Event) :
  encodeURIComponent owner = Returns o ->
  encodeURIComponent repo = Returns r ->
  encodeURIComponent branch = Returns b ->
  snd (getGitHubFile w owner repo path branch token tr)
  = tr ++ [EvFetch (get_request o r path b token)].
Proof.
  intros Ho Hr Hb. unfold getGitHubFile, githubRequest, fetch, bind, lift, ret, throw.
  rewrite Ho, Hr, Hb. repeat case_match; done.
Qed.

Lemma getGitHubFile_not_encoded (w : World) (owner repo path branch token : jsstring)
    (tr : list Event) :
  (exists e, encodeURIComponent owner = Throws e)
  \/ (exists e, encodeURIComponent repo = Throws e)
  \/ (exists e, encodeURIComponent branch = Throws e) ->
  exists e, getGitHubFile w owner repo path branch token tr = (Throws e, tr).
Proof.
  unfold getGitHubFile, bind, lift.
  intros [[e He]|[[e He]|[e He]]]; rewrite He; repeat case_match; eauto.
Qed.

Lemma encoded_or_not (owner repo branch : jsstring) :
  (exists o r b, encodeURIComponent owner = Returns o
                 /\ encodeURIComponent repo = Returns r
                 /\ encodeURIComponent branch = Returns b)
  \/ ((exists e, encodeURIComponent owner = Throws e)
      \/ (exists e, encodeURIComponent repo = Throws e)
      \/ (exists e, encodeURIComponent branch = Throws e)).
Proof.
  destruct (encodeURIComponent owner), (encodeURIComponent repo),
    (encodeURIComponent branch); eauto 10.
Qed.

(** A fetch that returned went out as one GET, with everything encoded. *)
Lemma getGitHubFile_returns_inv (w : World) (owner repo path branch token : jsstring)
    (cur : RemoteFile) (tr tr1 : list Event) :
  getGitHubFile w owner repo path branch token tr = (Returns cur, tr1) ->
  exists o r b,
    encodeURIComponent owner = Returns o
    /\ encodeURIComponent repo = Returns r
    /\ encodeURIComponent branch = Returns b
    /\ tr1 = tr ++ [EvFetch (get_request o r path b token)].
Proof.
  intros Hget.
  destruct (encoded_or_not owner repo branch) as [(o & r & b & Ho & Hr & Hb)|Hbad].
  - exists o, r, b. repeat split; try done.
    rewrite <- (getGitHubFile_trace w owner repo path branch token o r b tr) by done.
    by rewrite Hget.
  - destruct (getGitHubFile_not_encoded w owner repo path branch token tr Hbad)
      as [e He]. congruence.
Qed.

Lemma putGitHubFile_trace (w : World) (owner repo path branch token content : jsstring)
    (sha : option JValue) (message o r : jsstring) (tr : list Event) :
  encodeURIComponent owner = Returns o ->
  encodeURIComponent repo = Returns r ->
  snd (putGitHubFile w owner repo path branch token content sha message tr)
  = tr ++ [EvFetch (put_request o r path token (put_body message content branch sha))].
Proof.
  intros Ho Hr. unfold putGitHubFile, githubRequest, fetch, bind, lift, ret, throw.
  rewrite Ho, Hr. repeat case_match; done.
Qed.

(** A fetch answered 404 reports that the note does not exist. *)
Lemma getGitHubFile_404 (w : World) (owner repo path branch token o r b : jsstring)
    (res : HttpResponse) (tr : list Event) :
  encodeURIComponent owner = Returns o ->
  encodeURIComponent repo = Returns r ->
  encodeURIComponent branch = Returns b ->
  network w (length (List.filter is_fetch tr)) = FetchResolves res ->
  res_status res = 404 ->
  getGitHubFile w owner repo path branch token tr
  = (Returns NotFound, tr ++ [EvFetch (get_request o r path b token)]).
Proof.
  intros Ho Hr Hb Hnet Hstatus.
  unfold getGitHubFile, githubRequest, fetch, bind, lift, ret.
  by rewrite Ho, Hr, Hb, Hnet, Hstatus.
Qed.

(** A write answered 409 throws the error that [conflict_error] describes. *)
Lemma putGitHubFile_409 (w : World) (owner repo path branch token content : jsstring)
    (sha : option JValue) (message o r body : jsstring) (res : HttpResponse)
    (tr : list Event) :
  encodeURIComponent owner = Returns o ->
  encodeURIComponent repo = Returns r ->
  network w (length (List.filter is_fetch tr)) = FetchResolves res ->
  res_status res = 409 ->
  res_text res = Returns body ->
  exists e,
    fst (putGitHubFile w owner repo path branch token content sha message tr) = Throws e
    /\ e = new_Error (js "GitHub PUT failed (409): " ++ body)
    /\ conflict_error e.
Proof.
  intros Ho Hr Hnet Hstatus Htext. eexists. split; [|split; [reflexivity|]].
  - unfold putGitHubFile, githubRequest, fetch, bind, lift, throw, res_ok.
    rewrite Ho, Hr, Hnet, Hstatus, Htext. cbn [fst negb andb N.leb N.compare].
    done.
  - exists (js "PUT"), body. done.
Qed.

(** *** One attempt *)

Lemma attempt_once_get_throws (w : World) (tg : Target) (t : TimeParts)
    (entry commitMsg : jsstring) (e : JSError) (tr tr1 : list Event) :
  getGitHubFile w (owner tg) (repo tg) (path tg) (branch tg) (ghToken tg) tr
  = (Throws e, tr1) ->
  attempt_once w tg t entry commitMsg tr = (Throws e, tr1).
Proof. intros H. unfold attempt_once, bind. by rewrite H. Qed.

(** After a fetch that returned, the attempt writes once: the content and the
    token come from that fetch. *)
Lemma attempt_once_writes (w : World) (tg : Target) (t : TimeParts)
    (entry commitMsg : jsstring) (cur : RemoteFile) (tr tr1 : list Event) :
  getGitHubFile w (owner tg) (repo tg) (path tg) (branch tg) (ghToken tg) tr
  = (Returns cur, tr1) ->
  exists o r,
    encodeURIComponent (owner tg) = Returns o
    /\ encodeURIComponent (repo tg) = Returns r
    /\ snd (attempt_once w tg t entry commitMsg tr)
       = tr1 ++ [EvFetch (put_request o r (path tg) (ghToken tg)
                            (put_body commitMsg (nextContent_of t entry cur)
                                      (branch tg) (sha_of cur)))].
Proof.
  intros Hget.
  destruct (getGitHubFile_returns_inv _ _ _ _ _ _ _ _ _ Hget)
    as (o & r & b & Ho & Hr & Hb & ->).
  exists o, r. repeat split; try done.
  unfold attempt_once, bind at 1. rewrite Hget.
  pose proof (putGitHubFile_trace w (owner tg) (repo tg) (path tg) (branch tg)
                (ghToken tg) (nextContent_of t entry cur) (sha_of cur) commitMsg
                o r (tr ++ [EvFetch (get_request o r (path tg) b (ghToken tg))])
                Ho Hr) as Hput.
  unfold bind, ret.
  destruct (putGitHubFile _ _ _ _ _ _ _ _ _ _) as [[v|e] tr2]; exact Hput.
Qed.

Lemma kind_of_get (o r path b token : jsstring) :
  kind_of (EvFetch (get_request o r path b token)) = KGet.
Proof. done. Qed.

Lemma kind_of_put (o r path token : jsstring) (body : JValue) :
  kind_of (EvFetch (put_request o r path token body)) = KPut.
Proof. done. Qed.

Lemma attempt_once_kinds (w : World) (tg : Target) (t : TimeParts)
    (entry commitMsg : jsstring) (tr : list Event) :
  exists out evs,
    attempt_once w tg t entry commitMsg tr = (out, tr ++ evs)
    /\ attempt_kinds (map kind_of evs).
Proof.
  destruct (getGitHubFile w (owner tg) (repo tg) (path tg) (branch tg) (ghToken tg) tr)
    as [[cur|e] tr1] eqn:Hget.
  - destruct (attempt_once_writes w tg t entry commitMsg cur tr tr1 Hget)
      as (o & r & Ho & Hr & Htrace).
    destruct (getGitHubFile_returns_inv _ _ _ _ _ _ _ _ _ Hget)
      as (o' & r' & b & _ & _ & _ & ->).
    destruct (attempt_once w tg t entry commitMsg tr) as [out tr2]. simpl in Htrace.
    exists out, [EvFetch (get_request o' r' (path tg) b (ghToken tg));
                 EvFetch (put_request o r (path tg) (ghToken tg)
                            (put_body commitMsg (nextContent_of t entry cur)
                                      (branch tg) (sha_of cur)))].
    split; [by rewrite Htrace, <- app_assoc|]. right. right. done.
  - rewrite (attempt_once_get_throws _ _ _ _ _ _ _ _ Hget).
    destruct (encoded_or_not (owner tg) (repo tg) (branch tg))
      as [(o & r & b & Ho & Hr & Hb)|Hbad].
    + pose proof (getGitHubFile_trace w _ _ (path tg) _ (ghToken tg) _ _ _ tr Ho Hr Hb)
        as Htrace.
      rewrite Hget in Htrace. simpl in Htrace. subst tr1.
      eexists _, [_]. split; [done|]. right. left. done.
    + destruct (getGitHubFile_not_encoded w _ _ (path tg) _ (ghToken tg) tr Hbad)
        as [e' He']. rewrite Hget in He'. injection He' as _ ->.
      exists (Throws e), []. split; [by rewrite app_nil_r|]. by left.
Qed.

(** ** The append loop *)

Lemma starts_with_app_l (q r s : jsstring) :
  starts_with (q ++ r) s = true -> starts_with q s = true.
Proof.
  revert s. induction q as [|a q IH]; intros [|b s]; simpl; try done.
  intros [-> H]%andb_true_iff. simpl. by apply IH.
Qed.

Lemma includes_shorter_r (s q r : jsstring) :
  includes s (q ++ r) = true -> includes s q = true.
Proof.
  induction s as [|c s IH]; cbn [includes]; intros [H|H]%orb_true_iff.
  - by rewrite (starts_with_app_l _ _ _ H).
  - done.
  - by rewrite (starts_with_app_l _ _ _ H).
  - rewrite (IH H). apply orb_true_r.
Qed.

Lemma includes_shorter_l (s q : jsstring) (a : N) :
  includes s (a :: q) = true -> includes s q = true.
Proof.
  induction s as [|c s IH]; cbn [includes]; intros [H|H]%orb_true_iff; try done.
  - cbn [starts_with] in H. apply andb_true_iff in H as [_ H].
    assert (includes s q = true) as ->; [|apply orb_true_r].
    destruct s; cbn [includes]; by rewrite H.
  - rewrite (IH H). apply orb_true_r.
Qed.

(** The first test of [isConflict] adds nothing to the second. *)
Lemma isConflict_includes (msg : jsstring) : isConflict msg = includes msg (js "409").
Proof.
  unfold isConflict. destruct (includes msg (js "409")) eqn:E; [apply orb_true_r|].
  rewrite orb_false_r. destruct (includes msg (js "(409)")) eqn:E'; [|done].
  change (js "(409)") with (40 :: js "409" ++ [41]) in E'.
  apply includes_shorter_l, includes_shorter_r in E'. congruence.
Qed.

Lemma conflict_error_detected (e : JSError) :
  conflict_error e -> includes (error_detail e) (js "409") = true.
Proof.
  intros (verb & body & ->).
  assert (Hd : error_detail (new_Error (js "GitHub " ++ verb ++ js " failed (409): " ++ body))
               = js "GitHub " ++ verb ++ js " failed (409): " ++ body) by done.
  rewrite Hd. rewrite !app_assoc. rewrite <- (app_assoc _ (js " failed (409): ")).
  apply includes_app_r. change (js " failed (409): ") with (js " failed (" ++ js "409): ").
  rewrite <- app_assoc. apply includes_app_r. by apply includes_app_l.
Qed.

Lemma append_loop_success (w : World) (tg : Target) (t : TimeParts)
    (entry commitMsg : jsstring) (appended : nat) (attempt : N) (later : list N)
    (lastErr : option JSError) (tr tr1 : list Event) :
  attempt_once w tg t entry commitMsg tr = (Returns (), tr1) ->
  append_loop w tg t entry commitMsg appended (attempt :: later) lastErr tr
  = (Returns (Returned (appended_response appended (path tg))), tr1).
Proof.
  intros H. cbn [append_loop]. unfold try_catch, bind at 1. by rewrite H.
Qed.

Lemma append_loop_failure (w : World) (tg : Target) (t : TimeParts)
    (entry commitMsg : jsstring) (appended : nat) (attempt : N) (later : list N)
    (lastErr : option JSError) (e : JSError) (tr tr1 : list Event) :
  attempt_once w tg t entry commitMsg tr = (Throws e, tr1) ->
  append_loop w tg t entry commitMsg appended (attempt :: later) lastErr tr
  = (if includes (error_detail e) (js "409") && negb (attempt =? 3)
     then append_loop w tg t entry commitMsg appended later (Some e)
            (tr1 ++ [EvSleep (150 * attempt)])
     else (Returns (Left (Some e)), tr1)).
Proof.
  intros H. cbn [append_loop]. unfold try_catch, bind at 1. rewrite H.
  rewrite isConflict_includes.
  destruct (includes _ _); cbn [negb orb andb]; [|done].
  destruct (attempt =? 3); cbn [negb]; done.
Qed.

(** The loop never throws.  It ends with the success response right after
    an attempt that returned, or with the error of an attempt that threw
    (possibly one backoff later, when no value of [attempt] is left), or,
    without any attempt, with the [lastErr] it was given. *)
Lemma append_loop_returns (w : World) (tg : Target) (t : TimeParts)
    (entry commitMsg : jsstring) (appended : nat) (attempts : list N)
    (lastErr : option JSError) (tr : list Event) :
  exists exit tr',
    append_loop w tg t entry commitMsg appended attempts lastErr tr = (Returns exit, tr')
    /\ ((exit = Returned (appended_response appended (path tg))
         /\ exists tr0, attempt_once w tg t entry commitMsg tr0 = (Returns (), tr'))
        \/ (exists e tr0 tr1,
              exit = Left (Some e)
              /\ attempt_once w tg t entry commitMsg tr0 = (Throws e, tr1)
              /\ (tr' = tr1 \/ exists ms, tr' = tr1 ++ [EvSleep ms]))
        \/ (attempts = [] /\ exit = Left lastErr /\ tr' = tr)).
Proof.
  revert lastErr tr. induction attempts as [|attempt later IH]; intros lastErr tr.
  { eexists _, _. split; [done|]. auto. }
  destruct (attempt_once w tg t entry commitMsg tr) as [[[]|e] tr1] eqn:Hrun.
  - rewrite (append_loop_success _ _ _ _ _ _ _ _ _ _ _ Hrun). eauto 10.
  - rewrite (append_loop_failure _ _ _ _ _ _ _ _ _ _ _ _ Hrun).
    destruct (_ && _); [|eauto 15].
    destruct (IH (Some e) (tr1 ++ [EvSleep (150 * attempt)]))
      as (exit & tr' & -> & [Hok|[Herr|(_ & -> & ->)]]); eauto 15.
Qed.

Lemma finish_returns (p : jsstring) (exit : LoopExit) (tr : list Event) :
  exists r tr', finish p exit tr = (Returns r, tr')
    /\ match exit with
       | Returned r' => r = r'
       | Left lastErr => r = failure_response lastErr p
       end.
Proof. destruct exit; eexists _, _; split; done. Qed.

Lemma getGitHubFile_answered_409 (w : World) (owner repo path branch token o r b : jsstring)
    (res : HttpResponse) (tr : list Event) :
  encodeURIComponent owner = Returns o ->
  encodeURIComponent repo = Returns r ->
  encodeURIComponent branch = Returns b ->
  network w (length (List.filter is_fetch tr)) = FetchResolves res ->
  res_status res = 409 ->
  exists e,
    getGitHubFile w owner repo path branch token tr
    = (Throws e, tr ++ [EvFetch (get_request o r path b token)])
    /\ error_of_409 (js "GET") res e.
Proof.
  intros Ho Hr Hb Hnet Hstatus.
  unfold getGitHubFile, githubRequest, fetch, bind, lift, throw, res_ok, error_of_409.
  rewrite Ho, Hr, Hb, Hnet, Hstatus. cbn [negb andb N.leb N.compare N.eqb Pos.eqb].
  destruct (res_text res) as [body|e'].
  - eexists. split; [reflexivity|]. split; [reflexivity|].
    exists (js "GET"), body. reflexivity.
  - eexists. split; reflexivity.
Qed.

Lemma putGitHubFile_answered_409 (w : World) (owner repo path branch token content : jsstring)
    (sha : option JValue) (message o r : jsstring) (res : HttpResponse)
    (tr : list Event) :
  encodeURIComponent owner = Returns o ->
  encodeURIComponent repo = Returns r ->
  network w (length (List.filter is_fetch tr)) = FetchResolves res ->
  res_status res = 409 ->
  exists e,
    putGitHubFile w owner repo path branch token content sha message tr
    = (Throws e,
       tr ++ [EvFetch (put_request o r path token (put_body message content branch sha))])
    /\ error_of_409 (js "PUT") res e.
Proof.
  intros Ho Hr Hnet Hstatus.
  unfold putGitHubFile, githubRequest, fetch, bind, lift, throw, res_ok, error_of_409.
  rewrite Ho, Hr, Hnet, Hstatus. cbn [negb andb N.leb N.compare].
  destruct (res_text res) as [body|e'].
  - eexists. split; [reflexivity|]. split; [reflexivity|].
    exists (js "PUT"), body. reflexivity.
  - eexists. split; reflexivity.
Qed.

(** C4, as the code has it: a failed attempt is followed by the backoff and
    the remaining attempts exactly when the text of its error contains "409"
    and the attempt is not the third; otherwise the loop ends there with
    that error, which the failure response reports as its detail.  An
    attempt whose fetch or write is answered with status 409 fails with the
    error built from the text of the answer, which contains "409", when that
    text can be read, and with what reading it throws when it cannot. *)
Theorem retry_when_error_text_contains_409 (w : World) (tg : Target) (t : TimeParts)
    (entry commitMsg : jsstring) (appended : nat) (attempt : N) (later : list N)
    (lastErr : option JSError) (e : JSError) (tr tr1 : list Event) :
  attempt_once w tg t entry commitMsg tr = (Throws e, tr1) ->
  append_loop w tg t entry commitMsg appended (attempt :: later) lastErr tr
  = (if includes (error_detail e) (js "409") && negb (attempt =? 3)
     then append_loop w tg t entry commitMsg appended later (Some e)
            (tr1 ++ [EvSleep (150 * attempt)])
     else (Returns (Left (Some e)), tr1))
  /\ (conflict_error e -> includes (error_detail e) (js "409") = true)
  /\ (forall p, fst (finish p (Left (Some e)) tr1) = Returns (failure_response (Some e) p)
                /\ get_prop "detail" (jsonBody (failure_response (Some e) p))
                   = Some (JStr (error_detail e)))
  /\ (forall o r b res tr0,
        encodeURIComponent (owner tg) = Returns o ->
        encodeURIComponent (repo tg) = Returns r ->
        encodeURIComponent (branch tg) = Returns b ->
        network w (length (List.filter is_fetch tr0)) = FetchResolves res ->
        res_status res = 409 ->
        exists e0,
          attempt_once w tg t entry commitMsg tr0
          = (Throws e0, tr0 ++ [EvFetch (get_request o r (path tg) b (ghToken tg))])
          /\ error_of_409 (js "GET") res e0)
  /\ (forall cur res tr0 tr2,
        getGitHubFile w (owner tg) (repo tg) (path tg) (branch tg) (ghToken tg) tr0
        = (Returns cur, tr2) ->
        network w (length (List.filter is_fetch tr2)) = FetchResolves res ->
        res_status res = 409 ->
        exists e0 put,
          attempt_once w tg t entry commitMsg tr0 = (Throws e0, tr2 ++ [EvFetch put])
          /\ req_method put = js "PUT"
          /\ error_of_409 (js "PUT") res e0).
Proof.
  intros Hrun. split; [by apply append_loop_failure|].
  split; [apply conflict_error_detected|]. split; [intros p; split; done|]. split.
  - intros o r b res tr0 Ho Hr Hb Hnet Hstatus.
    destruct (getGitHubFile_answered_409 w (owner tg) (repo tg) (path tg) (branch tg)
                (ghToken tg) o r b res tr0 Ho Hr Hb Hnet Hstatus) as (e0 & Hget & He0).
    exists e0. split; [|exact He0].
    by apply attempt_once_get_throws.
  - intros cur res tr0 tr2 Hget Hnet Hstatus.
    destruct (getGitHubFile_returns_inv _ _ _ _ _ _ _ _ _ Hget)
      as (o & r & b & Ho & Hr & Hb & Htr2).
    destruct (putGitHubFile_answered_409 w (owner tg) (repo tg) (path tg) (branch tg)
                (ghToken tg) (nextContent_of t entry cur) (sha_of cur) commitMsg o r res
                tr2 Ho Hr Hnet Hstatus) as (e0 & Hput & He0).
    exists e0. eexists. split; [|split; [|exact He0]].
    + unfold attempt_once, bind at 1. rewrite Hget. unfold bind. rewrite Hput.
      reflexivity.
    + reflexivity.
Qed.

Lemma retry_when_error_text_contains_409_witness :
  let w := example_world example_env store_error_then_ok in
  let e := new_Error (js "GitHub GET failed (500): upstream 409 error") in
  let tr1 := [EvFetch (get_request (js "KijimaMotofumi") (js "note")
                         (js "daily/2026-01-02.md") (js "main") (js "ghp_token"))] in
  attempt_once w example_target example_time example_entry example_commit [] = (Throws e, tr1)
  /\ append_loop w example_target example_time example_entry example_commit 1 [1; 2; 3] None []
     = append_loop w example_target example_time example_entry example_commit 1 [2; 3] (Some e)
         (tr1 ++ [EvSleep 150]).
Proof.
  intros w e tr1.
  assert (Hrun : attempt_once w example_target example_time example_entry example_commit []
                 = (Throws e, tr1)) by by vm_compute.
  split; [exact Hrun|].
  destruct (retry_when_error_text_contains_409 w example_target example_time example_entry
              example_commit 1 1 [2; 3] None e [] tr1 Hrun) as [Hstep _].
  exact Hstep.
Defined.

(** C4 fails as stated: a fetch answered with status 500, not a conflict, is
    retried because the text of the answer mentions 409. *)
Lemma server_error_is_retried :
  let w := example_world example_env store_error_then_ok in
  reports_conflict (network w 0) = false
  /\ fst (attempt_once w example_target example_time example_entry example_commit [])
     = Throws (new_Error (js "GitHub GET failed (500): upstream 409 error"))
  /\ map kind_of
       (snd (append_loop w example_target example_time example_entry example_commit 1
               [1; 2; 3] None []))
     = [KGet; KSleep 150; KGet; KPut].
Proof. by vm_compute. Qed.

(** A write answered 409 whose text cannot be read is not retried: the error
    of the attempt is what reading the text threw. *)
Example conflict_with_unreadable_text_is_not_retried :
  let w := example_world example_env store_conflict_unreadable in
  let run := append_loop w example_target example_time example_entry example_commit 1
               [1; 2; 3] None [] in
  reports_conflict (network w 1) = true
  /\ fst run = Returns (Left (Some {| err_name := js "TypeError";
                                       err_message := js "terminated" |}))
  /\ map kind_of (snd run) = [KGet; KPut].
Proof. by vm_compute. Qed.

(** C3: the loop always ends with a result; it makes one, two or three
    attempts; an attempt writes only after its own fetch; 150 ms are waited
    after the first attempt and 300 ms after the second; and when all three
    attempts fail with the error of a 409 response, the result is the failure
    whose detail is the message of the third error. *)
Theorem three_attempts_with_backoff (w : World) (tg : Target) (t : TimeParts)
    (entry commitMsg : jsstring) (appended : nat) (tr : list Event) :
  (exists exit evs,
     append_loop w tg t entry commitMsg appended [1; 2; 3] None tr
     = (Returns exit, tr ++ evs)
     /\ exists a1 a2 a3,
          attempt_kinds a1 /\ attempt_kinds a2 /\ attempt_kinds a3
          /\ (map kind_of evs = a1
              \/ map kind_of evs = a1 ++ KSleep 150 :: a2
              \/ map kind_of evs = a1 ++ KSleep 150 :: a2 ++ KSleep 300 :: a3))
  /\ (forall e1 e2 e3 tr1 tr2 tr3,
        attempt_once w tg t entry commitMsg tr = (Throws e1, tr1) ->
        conflict_error e1 ->
        attempt_once w tg t entry commitMsg (tr1 ++ [EvSleep 150]) = (Throws e2, tr2) ->
        conflict_error e2 ->
        attempt_once w tg t entry commitMsg (tr2 ++ [EvSleep 300]) = (Throws e3, tr3) ->
        conflict_error e3 ->
        append_loop w tg t entry commitMsg appended [1; 2; 3] None tr
        = (Returns (Left (Some e3)), tr3)
        /\ forall p,
             fst (finish p (Left (Some e3)) tr3) = Returns (failure_response (Some e3) p)
             /\ get_prop "ok" (jsonBody (failure_response (Some e3) p)) = Some (JBool false)
             /\ get_prop "detail" (jsonBody (failure_response (Some e3) p))
                = Some (JStr (err_message e3))).
Proof.
  split.
  - destruct (attempt_once_kinds w tg t entry commitMsg tr)
      as (out1 & evs1 & Hrun1 & Hk1).
    assert (Hnil : attempt_kinds []) by by left.
    destruct out1 as [[]|e1].
    { rewrite (append_loop_success _ _ _ _ _ _ _ _ _ _ _ Hrun1).
      eexists _, evs1. split; [done|]. exists (map kind_of evs1), [], []. auto. }
    rewrite (append_loop_failure _ _ _ _ _ _ _ _ _ _ _ _ Hrun1).
    destruct (includes (error_detail e1) (js "409")); cbn [andb negb N.eqb Pos.eqb];
      [|eexists _, evs1; split; [done|]; exists (map kind_of evs1), [], []; auto].
    destruct (attempt_once_kinds w tg t entry commitMsg ((tr ++ evs1) ++ [EvSleep (150 * 1)]))
      as (out2 & evs2 & Hrun2 & Hk2).
    destruct out2 as [[]|e2].
    { rewrite (append_loop_success _ _ _ _ _ _ _ _ _ _ _ Hrun2).
      eexists _, (evs1 ++ EvSleep 150 :: evs2).
      split; [by rewrite <- !app_assoc|].
      exists (map kind_of evs1), (map kind_of evs2), [].
      rewrite map_app. auto 10. }
    rewrite (append_loop_failure _ _ _ _ _ _ _ _ _ _ _ _ Hrun2).
    destruct (includes (error_detail e2) (js "409")); cbn [andb negb N.eqb Pos.eqb];
      [|eexists _, (evs1 ++ EvSleep 150 :: evs2);
        split; [by rewrite <- !app_assoc|];
        exists (map kind_of evs1), (map kind_of evs2), [];
        rewrite map_app; auto 10].
    destruct (attempt_once_kinds w tg t entry commitMsg
                ((((tr ++ evs1) ++ [EvSleep (150 * 1)]) ++ evs2) ++ [EvSleep (150 * 2)]))
      as (out3 & evs3 & Hrun3 & Hk3).
    assert (Hshape : map kind_of (evs1 ++ EvSleep 150 :: evs2 ++ EvSleep 300 :: evs3)
                     = map kind_of evs1 ++ KSleep 150 :: map kind_of evs2
                       ++ KSleep 300 :: map kind_of evs3).
    { rewrite map_app. cbn [map]. rewrite map_app. done. }
    destruct out3 as [[]|e3].
    { rewrite (append_loop_success _ _ _ _ _ _ _ _ _ _ _ Hrun3).
      eexists _, (evs1 ++ EvSleep 150 :: evs2 ++ EvSleep 300 :: evs3).
      split; [by rewrite <- !app_assoc|].
      exists (map kind_of evs1), (map kind_of evs2), (map kind_of evs3). auto 10. }
    rewrite (append_loop_failure _ _ _ _ _ _ _ _ _ _ _ _ Hrun3).
    rewrite andb_false_r.
    eexists _, (evs1 ++ EvSleep 150 :: evs2 ++ EvSleep 300 :: evs3).
    split; [by rewrite <- !app_assoc|].
    exists (map kind_of evs1), (map kind_of evs2), (map kind_of evs3). auto 10.
  - intros e1 e2 e3 tr1 tr2 tr3 Hrun1 Hc1 Hrun2 Hc2 Hrun3 Hc3.
    split.
    + rewrite (append_loop_failure _ _ _ _ _ _ _ _ _ _ _ _ Hrun1).
      rewrite (conflict_error_detected _ Hc1). cbn [andb negb N.eqb Pos.eqb].
      rewrite (append_loop_failure _ _ _ _ _ _ _ _ _ _ _ _ Hrun2).
      rewrite (conflict_error_detected _ Hc2). cbn [andb negb N.eqb Pos.eqb].
      rewrite (append_loop_failure _ _ _ _ _ _ _ _ _ _ _ _ Hrun3).
      by rewrite andb_false_r.
    + intros p. destruct Hc3 as (verb & body & ->). repeat split; done.
Qed.

Lemma three_attempts_with_backoff_witness :
  let w := example_world example_env store_always_conflicts in
  let run := append_loop w example_target example_time example_entry example_commit 1
               [1; 2; 3] None [] in
  fst run = Returns (Left (Some (new_Error (js "GitHub PUT failed (409): sha mismatch"))))
  /\ map kind_of (snd run)
     = [KGet; KPut; KSleep 150; KGet; KPut; KSleep 300; KGet; KPut].
Proof.
  intros w run.
  set (e := new_Error (js "GitHub PUT failed (409): sha mismatch")).
  set (attempt := attempt_once w example_target example_time example_entry example_commit).
  set (tr1 := snd (attempt [])).
  set (tr2 := snd (attempt (tr1 ++ [EvSleep 150]))).
  set (tr3 := snd (attempt (tr2 ++ [EvSleep 300]))).
  assert (Hc : conflict_error e) by (by exists (js "PUT"), (js "sha mismatch")).
  assert (H1 : attempt [] = (Throws e, tr1)) by by vm_compute.
  assert (H2 : attempt (tr1 ++ [EvSleep 150]) = (Throws e, tr2)) by by vm_compute.
  assert (H3 : attempt (tr2 ++ [EvSleep 300]) = (Throws e, tr3)) by by vm_compute.
  destruct (three_attempts_with_backoff w example_target example_time example_entry
              example_commit 1 []) as [_ Hall].
  destruct (Hall e e e tr1 tr2 tr3 H1 Hc H2 Hc H3 Hc) as [Hrun _].
  subst run. rewrite Hrun. split; [done|]. by vm_compute.
Defined.

(** ** What an attempt writes *)

Lemma ensureEndsWithNewline_spec (s : jsstring) :
  ensureEndsWithNewline s = if endsWith s [LF] then s else s ++ [LF].
Proof. by destruct s. Qed.

Lemma put_body_content (message content branch : jsstring) (sha : option JValue) :
  get_prop "content" (put_body message content branch sha) = encoded content.
Proof. unfold put_body. destruct sha as [v|]; [destruct (truthy v)|]; done. Qed.

Lemma put_body_sha (message content branch : jsstring) (sha : option JValue) :
  get_prop "sha" (put_body message content branch sha)
  = if truthy_opt sha then sha else None.
Proof. unfold put_body. destruct sha as [v|]; [simpl; destruct (truthy v)|]; done. Qed.

(** C5, as the code has it: when the fetch of an attempt returns an existing
    note, the attempt writes the existing content, with one LF added only if
    it does not already end with LF, followed by the block; the write carries
    the token of that fetch when it is truthy, and no token otherwise. *)
Theorem existing_note_is_extended (w : World) (tg : Target) (t : TimeParts)
    (entry commitMsg : jsstring) (sha : option JValue) (content : jsstring)
    (tr tr1 : list Event) :
  getGitHubFile w (owner tg) (repo tg) (path tg) (branch tg) (ghToken tg) tr
  = (Returns (Found sha content), tr1) ->
  exists put,
    snd (attempt_once w tg t entry commitMsg tr) = tr1 ++ [EvFetch put]
    /\ kind_of (EvFetch put) = KPut
    /\ written_content put
       = encoded ((if endsWith content [LF] then content else content ++ [LF]) ++ entry)
    /\ written_sha put = (if truthy_opt sha then sha else None).
Proof.
  intros Hget.
  destruct (attempt_once_writes w tg t entry commitMsg _ tr tr1 Hget)
    as (o & r & _ & _ & Htrace).
  eexists. split; [exact Htrace|]. split; [done|].
  unfold written_content, written_sha. cbn [req_body put_request github_request get_prop_opt].
  rewrite put_body_content, put_body_sha. cbn [nextContent_of sha_of].
  by rewrite ensureEndsWithNewline_spec.
Qed.

Lemma existing_note_is_extended_witness :
  let w := example_world example_env store_with_blank_line in
  exists get put,
    snd (attempt_once w example_target example_time example_entry example_commit [])
    = [EvFetch get; EvFetch put]
    /\ written_content put = encoded (js "a" ++ [LF; LF] ++ js "- 14:03 hello" ++ [LF])
    /\ written_sha put = Some (JStr (js "3f2a")).
Proof.
  intros w.
  set (get := get_request (js "KijimaMotofumi") (js "note") (js "daily/2026-01-02.md")
                (js "main") (js "ghp_token")).
  assert (Hget : getGitHubFile w (owner example_target) (repo example_target)
                   (path example_target) (branch example_target) (ghToken example_target) []
                 = (Returns (Found (Some (JStr (js "3f2a"))) (js "a" ++ [LF; LF])),
                    [EvFetch get])) by by vm_compute.
  destruct (existing_note_is_extended w example_target example_time example_entry
              example_commit _ _ [] _ Hget) as (put & Htrace & _ & Hcontent & Hsha).
  exists get, put. split; [exact Htrace|]. split; [exact Hcontent|exact Hsha].
Defined.

(** C5 fails as stated: a note that ends with two newlines is written back
    with both, not with exactly one, before the block. *)
Lemma existing_note_keeps_its_newlines :
  let w := example_world example_env store_with_blank_line in
  let existing := js "a" ++ [LF; LF] in
  fst (getGitHubFile w (owner example_target) (repo example_target)
         (path example_target) (branch example_target) (ghToken example_target) [])
  = Returns (Found (Some (JStr (js "3f2a"))) existing)
  /\ exactly_one_trailing_newline existing = js "a" ++ [LF]
  /\ exists get put,
       snd (attempt_once w example_target example_time example_entry example_commit [])
       = [EvFetch get; EvFetch put]
       /\ written_content put = encoded (existing ++ example_entry)
       /\ written_content put
          <> encoded (exactly_one_trailing_newline existing ++ example_entry).
Proof.
  intros w existing. split; [by vm_compute|]. split; [by vm_compute|].
  eexists _, _. split; [by vm_compute|]. split; by vm_compute.
Qed.

(** C6: when the fetch of an attempt reports that the note does not exist,
    the attempt writes without a version token, and the content is the line
    "# " followed by the date, an empty line, then the block. *)
Theorem missing_note_is_created (w : World) (tg : Target) (t : TimeParts)
    (entry commitMsg : jsstring) (tr tr1 : list Event) :
  getGitHubFile w (owner tg) (repo tg) (path tg) (branch tg) (ghToken tg) tr
  = (Returns NotFound, tr1) ->
  exists put,
    snd (attempt_once w tg t entry commitMsg tr) = tr1 ++ [EvFetch put]
    /\ kind_of (EvFetch put) = KPut
    /\ written_sha put = None
    /\ written_content put = encoded (js "# " ++ date t ++ [LF] ++ [LF] ++ entry).
Proof.
  intros Hget.
  destruct (attempt_once_writes w tg t entry commitMsg _ tr tr1 Hget)
    as (o & r & _ & _ & Htrace).
  eexists. split; [exact Htrace|]. split; [done|].
  unfold written_content, written_sha. cbn [req_body put_request github_request get_prop_opt].
  by rewrite put_body_content, put_body_sha.
Qed.

Lemma missing_note_is_created_witness :
  let w := example_world example_env store_without_note in
  exists get put,
    snd (attempt_once w example_target example_time example_entry example_commit [])
    = [EvFetch get; EvFetch put]
    /\ written_sha put = None
    /\ written_content put
       = encoded (js "# 2026-01-02" ++ [LF] ++ [LF] ++ js "- 14:03 hello" ++ [LF]).
Proof.
  intros w.
  set (get := get_request (js "KijimaMotofumi") (js "note") (js "daily/2026-01-02.md")
                (js "main") (js "ghp_token")).
  assert (Hget : getGitHubFile w (owner example_target) (repo example_target)
                   (path example_target) (branch example_target) (ghToken example_target) []
                 = (Returns NotFound, [EvFetch get])) by by vm_compute.
  destruct (missing_note_is_created w example_target example_time example_entry
              example_commit [] _ Hget) as (put & Htrace & _ & Hsha & Hcontent).
  exists get, put. split; [exact Htrace|]. split; [exact Hsha|exact Hcontent].
Defined.

(** ** The responses of the handler *)

(** C10, as the code has it: a POST whose signature verifies and whose
    payload is extracted without error into no text message is answered 200
    with ok true and appended 0; the only thing the handler does on the way
    is read LINE_CHANNEL_SECRET: no call to the store, no read of
    GITHUB_TOKEN.  A payload whose events field is absent or not an array is
    such a payload. *)
Theorem no_text_messages_no_store_access (w : World) (request : Request)
    (secret : jsstring) (payload : JValue) (tr : list Event) :
  request_method request <> js "GET" ->
  env w !! "LINE_CHANNEL_SECRET"%string = Some secret -> secret <> [] ->
  verifyLineSignature (request_text request)
    (request_headers request !! js "x-line-signature") secret = Returns true ->
  JSON_parse w (request_text request) = Returns payload ->
  textMessages_of payload = Returns [] ->
  handler w request tr
  = (Returns noop_response, tr ++ [EvEnv "LINE_CHANNEL_SECRET"%string])
  /\ status noop_response = 200
  /\ get_prop "ok" (jsonBody noop_response) = Some (JBool true)
  /\ get_prop "appended" (jsonBody noop_response) = Some (JNum (js "0"))
  /\ (forall p, (forall items, get_prop "events" p <> Some (JArr items)) ->
                textMessages_of p = Returns []).
Proof.
  intros Hpost Hsecret Hne Hverify Hparse Hnone.
  split; [by apply (handler_verified w request secret payload)|].
  repeat split; try done.
  intros p Hp. unfold textMessages_of, events_of.
  destruct (get_prop "events" p) as [[]|]; try done. by destruct (Hp items).
Qed.

Lemma no_text_messages_no_store_access_witness :
  let w := example_world {[ "LINE_CHANNEL_SECRET"%string := js "secret" ]} no_network in
  handler w (signed_post body_image) []
  = (Returns noop_response, [EvEnv "LINE_CHANNEL_SECRET"%string]).
Proof.
  intros w.
  apply (no_text_messages_no_store_access w (signed_post body_image) (js "secret")
           (payload_of [image_event]) []); by vm_compute.
Defined.

(** C10 fails as stated: a verified POST whose only event is a
    whitespace-only text, so that no message qualifies, is not answered when
    the sender of that event is an object with a key toString: the sender is
    converted before the text is looked at, and the handler throws. *)
Lemma blank_text_from_unconvertible_sender_is_not_answered :
  let w := odd_world example_env in
  JSON_parse w body_odd_sender = Returns (payload_of [odd_sender_event])
  /\ List.filter qualifies (events_of (payload_of [odd_sender_event])) = []
  /\ handler w (signed_post body_odd_sender) []
     = (Throws cannot_convert, [EvEnv "LINE_CHANNEL_SECRET"%string]).
Proof. by vm_compute. Qed.

Lemma handler_rejects_signature (w : World) (request : Request) (secret : jsstring)
    (tr : list Event) :
  request_method request <> js "GET" ->
  env w !! "LINE_CHANNEL_SECRET"%string = Some secret -> secret <> [] ->
  verifyLineSignature (request_text request)
    (request_headers request !! js "x-line-signature") secret = Returns false ->
  handler w request tr
  = (Returns invalid_signature_response,
     tr ++ [EvEnv "LINE_CHANNEL_SECRET"%string; EvLog [LogStr (js "Invalid LINE signature")]]).
Proof.
  intros Hpost Hsecret Hne Hverify.
  unfold handler. rewrite (not_GET _ Hpost).
  unfold bind at 1. rewrite (requireEnv_set _ _ _ _ Hsecret Hne).
  unfold bind, lift, context_log, emit, ret. rewrite Hverify. cbn [negb].
  by rewrite <- app_assoc.
Qed.

Lemma handler_rejects_json (w : World) (request : Request) (secret : jsstring)
    (e : JSError) (tr : list Event) :
  request_method request <> js "GET" ->
  env w !! "LINE_CHANNEL_SECRET"%string = Some secret -> secret <> [] ->
  verifyLineSignature (request_text request)
    (request_headers request !! js "x-line-signature") secret = Returns true ->
  JSON_parse w (request_text request) = Throws e ->
  handler w request tr
  = (Returns invalid_json_response, tr ++ [EvEnv "LINE_CHANNEL_SECRET"%string]).
Proof.
  intros Hpost Hsecret Hne Hverify Hparse.
  unfold handler. rewrite (not_GET _ Hpost).
  unfold bind at 1. rewrite (requireEnv_set _ _ _ _ Hsecret Hne).
  unfold bind, lift. rewrite Hverify. cbn [negb]. by rewrite Hparse.
Qed.

(** C1, as the code has it: with LINE_CHANNEL_SECRET set, a POST is
    answered 401 when the signature does not verify and 400 when the body
    does not parse.  When the body parses, [String] succeeds on the texts and
    senders of its text events and, should a text message qualify,
    GITHUB_TOKEN is set, the answer is 200 and the handler does not throw
    whatever the store does.  The body of a 200 is ok true with appended 0
    when no text message qualifies, ok true with the appended count and the
    path after an attempt that returned, and otherwise ok false with error
    append_failed and, as detail, the text of the error an attempt threw. *)
Theorem post_is_always_answered (w : World) (request : Request)
    (secret : jsstring) (tr : list Event) :
  request_method request <> js "GET" ->
  env w !! "LINE_CHANNEL_SECRET"%string = Some secret -> secret <> [] ->
  let verified := verifyLineSignature (request_text request)
                    (request_headers request !! js "x-line-signature") secret in
  let parsed := JSON_parse w (request_text request) in
  (forall payload,
     verified = Returns true -> parsed = Returns payload ->
     exists msgs,
       textMessages_of payload = Returns msgs
       /\ (msgs <> [] ->
           exists token, env w !! "GITHUB_TOKEN"%string = Some token /\ token <> [])) ->
  exists r tr',
    handler w request tr = (Returns r, tr')
    /\ ((verified = Returns false /\ r = invalid_signature_response /\ status r = 401)
        \/ (verified = Returns true /\ (exists e, parsed = Throws e)
            /\ r = invalid_json_response /\ status r = 400)
        \/ (verified = Returns true /\ status r = 200
            /\ exists payload msgs,
                 parsed = Returns payload
                 /\ textMessages_of payload = Returns msgs
                 /\ ((msgs = [] /\ r = noop_response)
                     \/ exists token,
                          env w !! "GITHUB_TOKEN"%string = Some token /\ token <> []
                          /\ let t := formatTokyoParts (clock_parts w) in
                             let attempt :=
                               attempt_once w (configured_target w token) t
                                 (entry_of t msgs) (configured_commit w) in
                             (r = appended_response (length msgs) (configured_path w)
                              /\ exists tr0 tr1, attempt tr0 = (Returns (), tr1))
                             \/ (exists e tr0 tr1,
                                   attempt tr0 = (Throws e, tr1)
                                   /\ r = failure_response (Some e) (configured_path w)
                                   /\ get_prop "ok" (jsonBody r) = Some (JBool false)
                                   /\ get_prop "error" (jsonBody r)
                                      = Some (JStr (js "append_failed"))
                                   /\ get_prop "detail" (jsonBody r)
                                      = Some (JStr (error_detail e)))))).
Proof.
  intros Hpost Hsecret Hne verified parsed Hanswerable.
  destruct (verifyLineSignature_returns (request_text request)
              (request_headers request !! js "x-line-signature") secret)
    as [[] Hverify]; fold verified in Hverify.
  2:{ eexists _, _. split; [by apply (handler_rejects_signature w request secret)|].
      left. done. }
  destruct parsed as [payload|e] eqn:Hparse; subst parsed.
  2:{ eexists _, _. split; [by apply (handler_rejects_json w request secret e)|].
      right. left. eauto 10. }
  destruct (Hanswerable payload Hverify eq_refl) as (msgs & Hmsgs & Htoken).
  destruct (decide (msgs = [])) as [->|Hsome].
  { eexists _, _. split; [by apply (handler_verified w request secret payload)|].
    right. right. split; [done|]. split; [done|]. exists payload, [].
    split; [done|]. split; [done|]. left. done. }
  destruct (Htoken Hsome) as (token & Henv & Hne').
  rewrite (handler_appends w request secret token payload msgs) by done.
  unfold append_and_finish, bind at 1.
  destruct (append_loop_returns w (configured_target w token)
              (formatTokyoParts (clock_parts w))
              (entry_of (formatTokyoParts (clock_parts w)) msgs)
              (configured_commit w) (length msgs) [1; 2; 3] None
              (tr ++ config_reads)) as (exit & tr' & -> & Hexit).
  destruct (finish_returns (configured_path w) exit tr') as (r & tr'' & -> & Hr).
  exists r, tr''. split; [done|]. right. right.
  destruct Hexit as [[-> (tr0 & Hrun)]|[(e & tr0 & tr1 & -> & Hrun & _)|([=] & _)]];
    subst r.
  - split; [done|]. split; [done|]. exists payload, msgs. split; [done|].
    split; [done|]. right. exists token. split; [done|]. split; [done|].
    cbv zeta. left. eauto.
  - split; [done|]. split; [done|]. exists payload, msgs. split; [done|].
    split; [done|]. right. exists token. split; [done|]. split; [done|].
    cbv zeta. right. exists e, tr0, tr1. by repeat split.
Qed.

Lemma post_is_always_answered_witness :
  let w := example_world example_env store_always_conflicts in
  exists r tr',
    handler w (signed_post body_hello) [] = (Returns r, tr')
    /\ (status r = 401 \/ status r = 400 \/ status r = 200).
Proof.
  intros w.
  assert (Hpost : request_method (signed_post body_hello) <> js "GET")
    by (vm_compute; discriminate).
  assert (Hsecret : env w !! "LINE_CHANNEL_SECRET"%string = Some (js "secret"))
    by (vm_compute; reflexivity).
  assert (Hs : js "secret" <> []) by discriminate.
  assert (Hanswerable :
            forall payload,
              verifyLineSignature (request_text (signed_post body_hello))
                (request_headers (signed_post body_hello) !! js "x-line-signature")
                (js "secret") = Returns true ->
              JSON_parse w (request_text (signed_post body_hello)) = Returns payload ->
              exists msgs,
                textMessages_of payload = Returns msgs
                /\ (msgs <> [] ->
                    exists token,
                      env w !! "GITHUB_TOKEN"%string = Some token /\ token <> [])).
  { intros payload _ Hparse.
    assert (Hp : JSON_parse w (request_text (signed_post body_hello))
                 = Returns (payload_of [text_event (js "hello")]))
      by (vm_compute; reflexivity).
    rewrite Hp in Hparse. injection Hparse as <-.
    exists [{| text := js "hello"; userId := None |}].
    split; [vm_compute; reflexivity|]. intros _. exists (js "ghp_token").
    split; [vm_compute; reflexivity|discriminate]. }
  pose proof (post_is_always_answered w (signed_post body_hello) (js "secret")
                [] Hpost Hsecret Hs Hanswerable) as Hthm.
  destruct Hthm as (r & tr' & Hrun & Hcases).
  exists r, tr'. split; [exact Hrun|].
  destruct Hcases as [(_ & _ & H)|[(_ & _ & _ & H)|(_ & H & _)]]; auto.
Defined.

(** C1 fails as stated: a POST handled without LINE_CHANNEL_SECRET is not
    answered at all, [requireEnv] throws; and so does a POST with a text
    message handled without GITHUB_TOKEN. *)
Lemma post_without_required_setting_throws :
  handler (example_world ∅ no_network) (signed_post body_hello) []
  = (Throws (new_Error (js "Missing env: LINE_CHANNEL_SECRET")),
     [EvEnv "LINE_CHANNEL_SECRET"%string])
  /\ handler (example_world {[ "LINE_CHANNEL_SECRET"%string := js "secret" ]} no_network)
       (signed_post body_hello) []
     = (Throws (new_Error (js "Missing env: GITHUB_TOKEN")),
        [EvEnv "LINE_CHANNEL_SECRET"%string; EvEnv "GITHUB_TOKEN"%string]).
Proof. split; by vm_compute. Qed.

Lemma buildNotePath_substitutes_placeholders_witness :
  calendar_fields_decimal example_time
  /\ buildNotePath (js "{yy}/{date}/{dd}-{dd}{foo}.md") example_time
     = resolve_placeholders (js "{yy}/{date}/{dd}-{dd}{foo}.md") example_time
  /\ resolve_placeholders (js "{yy}/{date}/{dd}-{dd}{foo}.md") example_time
     = js "26/2026-01-02/02-02{foo}.md".
Proof.
  assert (Hp : calendar_fields_decimal example_time) by (repeat split; by vm_compute).
  split; [exact Hp|]. split; [|by vm_compute].
  exact (proj1 (buildNotePath_substitutes_placeholders
                  (js "{yy}/{date}/{dd}-{dd}{foo}.md") example_time Hp)).
Defined.

(** ** Examples from the specification *)

Example extraction_example :
  outcome_map (map text)
    (textMessages_of
       (payload_of [text_event (js "hello"); image_event;
                    text_event (js "   "); JNull; text_event (js "world")]))
  = Returns [js "hello"; js "world"].
Proof. by vm_compute. Qed.

(** A text that [String] cannot convert: with both settings set the handler
    throws before it reads GITHUB_TOKEN. *)
Example unconvertible_text :
  handler (odd_world example_env) (signed_post body_odd_text) []
  = (Throws cannot_convert, [EvEnv "LINE_CHANNEL_SECRET"%string]).
Proof. by vm_compute. Qed.

Example crlf_example :
  entry_of example_time [{| text := js "line1" ++ [CR; LF] ++ js "line2"; userId := None |}]
  = js "- 14:03 line1" ++ [LF] ++ js "line2" ++ [LF].
Proof. by vm_compute. Qed.

Example health_check (w : World) (body : jsstring) (headers : gmap jsstring jsstring)
    (tr : list Event) :
  handler w {| request_method := js "GET"; request_text := body;
               request_headers := headers |} tr
  = (Returns health_response, tr).
Proof. done. Qed.

Example successful_append :
  let w := example_world example_env store_without_note in
  let run := handler w (signed_post body_hello) [] in
  fst run = Returns (appended_response 1 (js "daily/2026-01-02.md"))
  /\ map kind_of (snd run) = [KEnv; KEnv; KEnv; KEnv; KEnv; KEnv; KGet; KPut].
Proof. by vm_compute. Qed.

(** ** More about the content that is written *)

Lemma endsWith_snoc (s : jsstring) (c : N) : endsWith (s ++ [c]) [c] = true.
Proof.
  unfold endsWith. rewrite rev_app_distr. cbn [rev app starts_with].
  by rewrite N.eqb_refl.
Qed.

(** X1: [ensureEndsWithNewline] never removes anything: its result is the
    input, followed by one LF when the input does not already end with LF
    (the empty text included); the result always ends with LF, and applying
    the function twice is applying it once. *)
Theorem ensureEndsWithNewline_adds_at_most_one (s : jsstring) :
  (ensureEndsWithNewline s = s \/ ensureEndsWithNewline s = s ++ [LF])
  /\ endsWith (ensureEndsWithNewline s) [LF] = true
  /\ (ensureEndsWithNewline s = s <-> endsWith s [LF] = true)
  /\ ensureEndsWithNewline (ensureEndsWithNewline s) = ensureEndsWithNewline s.
Proof.
  rewrite !ensureEndsWithNewline_spec.
  destruct (endsWith s [LF]) eqn:E.
  - rewrite E. repeat split; auto.
  - rewrite endsWith_snoc. repeat split; auto; try done.
    intros H. apply (f_equal length) in H. rewrite length_app in H. simpl in H. lia.
Qed.

Lemma entry_of_cons (t : TimeParts) (m : TextMessage) (msgs : list TextMessage) :
  msgs <> [] -> entry_of t (m :: msgs) = render_line t m ++ [LF] ++ entry_of t msgs.
Proof.
  intros Hne. unfold entry_of. destruct msgs as [|m' msgs]; [done|].
  cbn [map join]. by rewrite <- !app_assoc.
Qed.

Lemma entry_of_app (t : TimeParts) (a b : list TextMessage) :
  a <> [] -> b <> [] -> entry_of t (a ++ b) = entry_of t a ++ entry_of t b.
Proof.
  intros Ha Hb. induction a as [|m a IH]; [done|].
  destruct a as [|m' a].
  - cbn [app]. rewrite entry_of_cons by done. unfold entry_of at 2. cbn [map join].
    by rewrite <- !app_assoc.
  - cbn [app] in *. rewrite entry_of_cons by done. rewrite IH by done.
    rewrite (entry_of_cons t m (m' :: a)) by done. by rewrite <- !app_assoc.
Qed.

(** X2: the block is one piece per message, the rendered line followed by
    LF, in the order of the messages; nothing separates or surrounds the
    pieces. *)
Theorem entry_is_one_line_per_message (t : TimeParts) (msgs : list TextMessage) :
  msgs <> [] ->
  entry_of t msgs = concat (map (fun m => render_line t m ++ [LF]) msgs).
Proof.
  intros Hne. induction msgs as [|m msgs IH]; [done|].
  destruct msgs as [|m' msgs].
  - unfold entry_of. cbn [map join concat]. by rewrite app_nil_r.
  - rewrite entry_of_cons by done. rewrite IH by done. cbn [map concat].
    by rewrite <- !app_assoc.
Qed.

Lemma entry_is_one_line_per_message_witness :
  entry_of example_time
    [{| text := js "a"; userId := None |}; {| text := js "b"; userId := None |}]
  = (js "- 14:03 a" ++ [LF]) ++ (js "- 14:03 b" ++ [LF]).
Proof.
  rewrite (entry_is_one_line_per_message example_time
             [{| text := js "a"; userId := None |}; {| text := js "b"; userId := None |}])
    by done.
  by vm_compute.
Defined.

Lemma entry_of_ends_with_newline (t : TimeParts) (msgs : list TextMessage)
    (before : jsstring) :
  ensureEndsWithNewline (before ++ entry_of t msgs) = before ++ entry_of t msgs.
Proof.
  rewrite ensureEndsWithNewline_spec. unfold entry_of.
  by rewrite app_assoc, endsWith_snoc.
Qed.

(** X3: appending in two requests gives the same note as appending the
    messages of both in one request at the same minute: the second write adds
    its block directly after the first, to an existing note and to a note the
    first request created alike. *)
Theorem two_appends_are_one (t : TimeParts) (first second : list TextMessage)
    (cur : RemoteFile) (sha : option JValue) :
  first <> [] -> second <> [] ->
  nextContent_of t (entry_of t second)
    (Found sha (nextContent_of t (entry_of t first) cur))
  = nextContent_of t (entry_of t (first ++ second)) cur.
Proof.
  intros H1 H2. rewrite entry_of_app by done.
  destruct cur as [|sha0 content]; cbn [nextContent_of].
  - rewrite !app_assoc. rewrite entry_of_ends_with_newline. by rewrite <- !app_assoc.
  - rewrite entry_of_ends_with_newline. by rewrite <- !app_assoc.
Qed.

Lemma two_appends_are_one_witness :
  let a := [{| text := js "a"; userId := None |}] in
  let b := [{| text := js "b"; userId := None |}] in
  nextContent_of example_time (entry_of example_time b)
    (Found None (nextContent_of example_time (entry_of example_time a) NotFound))
  = js "# 2026-01-02" ++ [LF; LF] ++ js "- 14:03 a" ++ [LF] ++ js "- 14:03 b" ++ [LF].
Proof.
  intros a b.
  rewrite (two_appends_are_one example_time a b NotFound None) by done.
  by vm_compute.
Defined.

(** ** More about line breaks *)

Lemma normalize_newlines_no_CR (s : jsstring) : CR ∉ normalize_newlines s.
Proof.
  remember (length s) as n eqn:Hn. revert s Hn.
  induction (lt_wf n) as [n _ IH]. intros [|c s] Hn; [apply not_elem_of_nil|].
  assert (Hs : CR ∉ normalize_newlines s).
  { apply (IH (length s)); [subst n; simpl; lia|done]. }
  cbn [normalize_newlines]. destruct (c =? CR) eqn:Ec.
  - apply not_elem_of_cons. split; [done|].
    destruct s as [|d s']; [apply not_elem_of_nil|].
    destruct (d =? LF); [|done].
    apply (IH (length s')); [subst n; simpl; lia|done].
  - apply not_elem_of_cons. split; [|done].
    apply N.eqb_neq in Ec. congruence.
Qed.

Lemma normalize_newlines_without_CR (s : jsstring) :
  CR ∉ s -> normalize_newlines s = s.
Proof.
  induction s as [|c s IH]; [done|]. intros [Hc Hs]%not_elem_of_cons.
  cbn [normalize_newlines]. rewrite (proj2 (N.eqb_neq c CR)) by congruence.
  by rewrite IH.
Qed.

Lemma not_elem_of_join (c : N) (sep : jsstring) (parts : list jsstring) :
  c ∉ sep -> Forall (fun p => c ∉ p) parts -> c ∉ join sep parts.
Proof.
  intros Hsep. induction 1 as [|p parts Hp _ IH]; [apply not_elem_of_nil|].
  destruct parts as [|p' parts]; [done|].
  change (join sep (p :: p' :: parts)) with (p ++ sep ++ join sep (p' :: parts)).
  rewrite !not_elem_of_app. auto.
Qed.

(** X4: no CR is left in the text of a rendered message, whatever mix of
    CR LF, lone CR and LF it holds, and a text without CR is rendered as it
    is; with an hour and a minute free of CR, the whole block is free of CR. *)
Theorem rendered_block_has_no_CR (t : TimeParts) :
  (forall s, CR ∉ replaceAll [CR] [LF] (replaceAll [CR; LF] [LF] s))
  /\ (forall s, CR ∉ s -> replaceAll [CR] [LF] (replaceAll [CR; LF] [LF] s) = s)
  /\ (CR ∉ HH t -> CR ∉ MM t -> forall msgs, CR ∉ entry_of t msgs).
Proof.
  split; [intros s; rewrite normalize_by_replaceAll; apply normalize_newlines_no_CR|].
  split.
  { intros s Hs. rewrite normalize_by_replaceAll. by apply normalize_newlines_without_CR. }
  intros HH MM msgs. unfold entry_of.
  assert (Hcr : CR ∉ [LF]) by (intros H%list_elem_of_singleton; discriminate H).
  apply not_elem_of_app. split; [|done].
  apply not_elem_of_join; [done|]. apply Forall_map, Forall_forall. intros m _.
  rewrite render_line_normalized. rewrite !not_elem_of_app.
  pose proof (normalize_newlines_no_CR (text m)).
  repeat split; try done; intros Hin; by vm_compute in Hin;
    repeat (apply elem_of_cons in Hin as [Hin|Hin]; [discriminate Hin|]);
    by apply elem_of_nil in Hin.
Qed.

(** ** More about the conflict test *)

Lemma starts_with_spec (p s : jsstring) :
  starts_with p s = true <-> exists post, s = p ++ post.
Proof.
  split.
  - intros H. exists (drop (length p) s). by apply starts_with_inv.
  - intros [post ->]. apply starts_with_app.
Qed.

Lemma includes_spec (s p : jsstring) :
  includes s p = true <-> exists pre post, s = pre ++ p ++ post.
Proof.
  split.
  - induction s as [|c s IH]; cbn [includes]; intros [H|H]%orb_true_iff.
    + apply starts_with_spec in H as [post ->]. by exists [], post.
    + done.
    + apply starts_with_spec in H as [post ->]. by exists [], post.
    + destruct (IH H) as (pre & post & ->). by exists (c :: pre), post.
  - intros (pre & post & ->). apply includes_app_r, includes_app_l.
    apply starts_with_spec. exists []. by rewrite app_nil_r.
Qed.

(** X5: the loop takes an error for a conflict exactly when its text
    contains the three characters 409 somewhere; the test for "(409)" that
    comes first never changes the outcome. *)
Theorem isConflict_is_substring_409 (msg : jsstring) :
  (isConflict msg = true <-> exists pre post, msg = pre ++ js "409" ++ post)
  /\ isConflict msg = includes msg (js "409").
Proof.
  split; [|apply isConflict_includes].
  rewrite isConflict_includes. apply includes_spec.
Qed.

(** ** More about the handler *)

Lemma requireEnv_missing (w : World) (name : string) (tr : list Event) :
  env_missing w name ->
  requireEnv w name tr = (Throws (missing_env_error name), tr ++ [EvEnv name]).
Proof.
  intros [H|H]; unfold requireEnv, getenv, bind, emit, ret; by rewrite H.
Qed.

Lemma env_set_or_missing (w : World) (name : string) :
  env_missing w name \/ exists v, env w !! name = Some v /\ v <> [].
Proof.
  unfold env_missing. destruct (env w !! name) as [[|c s]|]; eauto.
Qed.

Lemma post_needs_the_secret_run (w : World) (request : Request) (tr : list Event) :
  request_method request <> js "GET" ->
  env_missing w "LINE_CHANNEL_SECRET" ->
  handler w request tr
  = (Throws (missing_env_error "LINE_CHANNEL_SECRET"),
     tr ++ [EvEnv "LINE_CHANNEL_SECRET"%string]).
Proof.
  intros Hpost Hmissing. unfold handler. rewrite (not_GET _ Hpost).
  unfold bind at 1. by rewrite (requireEnv_missing _ _ _ Hmissing).
Qed.

(** X6: a POST handled while LINE_CHANNEL_SECRET is unset, or set to the
    empty text, is not answered: the handler throws "Missing env:
    LINE_CHANNEL_SECRET" right after reading the variable, before it looks at
    the signature or the body. *)
Theorem post_needs_the_secret (w : World) (request : Request) (tr : list Event) :
  request_method request <> js "GET" ->
  env_missing w "LINE_CHANNEL_SECRET" ->
  handler w request tr
  = (Throws (new_Error (js "Missing env: LINE_CHANNEL_SECRET")),
     tr ++ [EvEnv "LINE_CHANNEL_SECRET"%string]).
Proof. apply post_needs_the_secret_run. Qed.

Lemma post_needs_the_secret_witness :
  handler (example_world env_with_empty_secret no_network) (signed_post body_hello) []
  = (Throws (new_Error (js "Missing env: LINE_CHANNEL_SECRET")),
     [EvEnv "LINE_CHANNEL_SECRET"%string]).
Proof.
  apply (post_needs_the_secret (example_world env_with_empty_secret no_network)
           (signed_post body_hello) []).
  - by vm_compute.
  - right. by vm_compute.
Defined.

Lemma handler_missing_token (w : World) (request : Request) (secret : jsstring)
    (payload : JValue) (msgs : list TextMessage) (tr : list Event) :
  request_method request <> js "GET" ->
  env w !! "LINE_CHANNEL_SECRET"%string = Some secret -> secret <> [] ->
  verifyLineSignature (request_text request)
    (request_headers request !! js "x-line-signature") secret = Returns true ->
  JSON_parse w (request_text request) = Returns payload ->
  textMessages_of payload = Returns msgs -> msgs <> [] ->
  env_missing w "GITHUB_TOKEN" ->
  handler w request tr
  = (Throws (missing_env_error "GITHUB_TOKEN"),
     tr ++ [EvEnv "LINE_CHANNEL_SECRET"%string; EvEnv "GITHUB_TOKEN"%string]).
Proof.
  intros Hpost Hsecret Hne Hverify Hparse Hmsgs Hsome Hmissing.
  unfold handler. rewrite (not_GET _ Hpost).
  unfold bind at 1. rewrite (requireEnv_set _ _ _ _ Hsecret Hne).
  unfold bind at 1, lift. rewrite Hverify. cbn [negb]. rewrite Hparse.
  unfold bind at 1. rewrite Hmsgs.
  destruct msgs as [|m ms]; [done|].
  cbn [length Nat.eqb].
  unfold bind at 1. rewrite (requireEnv_missing _ _ _ Hmissing).
  by rewrite <- app_assoc.
Qed.

(** X7: a POST that verifies and whose payload is extracted into at least
    one text message, handled while GITHUB_TOKEN is unset or set to the
    empty text, is not answered: the handler throws "Missing env:
    GITHUB_TOKEN" after reading the two variables, without any call to the
    store and without a log line. *)
Theorem append_needs_the_token (w : World) (request : Request) (secret : jsstring)
    (payload : JValue) (msgs : list TextMessage) (tr : list Event) :
  request_method request <> js "GET" ->
  env w !! "LINE_CHANNEL_SECRET"%string = Some secret -> secret <> [] ->
  request_headers request !! js "x-line-signature"
  = Some (hmac_b64 (request_text request) secret) ->
  JSON_parse w (request_text request) = Returns payload ->
  textMessages_of payload = Returns msgs -> msgs <> [] ->
  env_missing w "GITHUB_TOKEN" ->
  handler w request tr
  = (Throws (new_Error (js "Missing env: GITHUB_TOKEN")),
     tr ++ [EvEnv "LINE_CHANNEL_SECRET"%string; EvEnv "GITHUB_TOKEN"%string]).
Proof.
  intros Hpost Hsecret Hne Hheader Hparse Hmsgs Hsome Hmissing.
  apply (handler_missing_token w request secret payload msgs); try done.
  by apply (proj2 (verifyLineSignature_true_iff _ _ _)).
Qed.

Lemma append_needs_the_token_witness :
  handler (example_world env_with_empty_token no_network) (signed_post body_hello) []
  = (Throws (new_Error (js "Missing env: GITHUB_TOKEN")),
     [EvEnv "LINE_CHANNEL_SECRET"%string; EvEnv "GITHUB_TOKEN"%string]).
Proof.
  apply (append_needs_the_token (example_world env_with_empty_token no_network)
           (signed_post body_hello) (js "secret") (payload_of [text_event (js "hello")])
           [{| text := js "hello"; userId := None |}] []).
  - vm_compute. discriminate.
  - vm_compute. reflexivity.
  - discriminate.
  - apply lookup_singleton_eq.
  - vm_compute. reflexivity.
  - vm_compute. reflexivity.
  - discriminate.
  - right. vm_compute. reflexivity.
Defined.

Lemma response_status_200 (w : World) (tg : Target) (t : TimeParts)
    (entry commitMsg : jsstring) (appended : nat) (p : jsstring) (tr : list Event) :
  exists r tr',
    (let* exit := append_loop w tg t entry commitMsg appended [1; 2; 3] None in
     finish p exit) tr
    = (Returns r, tr')
    /\ status r = 200.
Proof.
  unfold bind.
  destruct (append_loop_returns w tg t entry commitMsg appended [1; 2; 3] None tr)
    as (exit & tr' & -> & Hexit).
  destruct (finish_returns p exit tr') as (r & tr'' & -> & Hr).
  exists r, tr''. split; [done|].
  destruct Hexit as [[-> _]|[(e & _ & _ & -> & _)|(_ & -> & _)]]; by subst r.
Qed.

(** X8: with the secret set, a POST is answered 401 "Invalid signature"
    exactly when its x-line-signature header is not the signature of its
    body, a missing header included; the refusal is logged and nothing else
    happens: the body is not parsed and GITHUB_TOKEN is not read. *)
Theorem unauthorized_iff_wrong_signature (w : World) (request : Request)
    (secret : jsstring) (tr : list Event) :
  request_method request <> js "GET" ->
  env w !! "LINE_CHANNEL_SECRET"%string = Some secret -> secret <> [] ->
  let header := request_headers request !! js "x-line-signature" in
  let signature := hmac_b64 (request_text request) secret in
  (header <> Some signature ->
   handler w request tr
   = (Returns invalid_signature_response,
      tr ++ [EvEnv "LINE_CHANNEL_SECRET"%string;
             EvLog [LogStr (js "Invalid LINE signature")]]))
  /\ (header = Some signature ->
      forall r, fst (handler w request tr) = Returns r -> status r <> 401).
Proof.
  intros Hpost Hsecret Hne header signature. split.
  - intros Hwrong. apply (handler_rejects_signature w request secret); try done.
    destruct (verifyLineSignature_returns (request_text request) header secret)
      as [[] Hb]; [|done].
    by apply (proj1 (verifyLineSignature_true_iff _ _ _)) in Hb.
  - intros Hright r Hr.
    assert (Hverify : verifyLineSignature (request_text request) header secret
                      = Returns true)
      by by apply (proj2 (verifyLineSignature_true_iff _ _ _)).
    destruct (JSON_parse w (request_text request)) as [payload|e] eqn:Hparse.
    2:{ rewrite (handler_rejects_json w request secret e) in Hr by done.
        injection Hr as <-. done. }
    destruct (textMessages_of payload) as [msgs|e] eqn:Hmsgs.
    2:{ by rewrite (handler_extraction_throws w request secret payload e) in Hr. }
    destruct (decide (msgs = [])) as [->|Hsome].
    { rewrite (handler_verified w request secret payload) in Hr by done.
      injection Hr as <-. done. }
    destruct (env_set_or_missing w "GITHUB_TOKEN") as [Hmissing|(token & Htoken & Hne')].
    { by rewrite (handler_missing_token w request secret payload msgs) in Hr. }
    rewrite (handler_appends w request secret token payload msgs) in Hr by done.
    unfold append_and_finish in Hr. cbv zeta in Hr.
    destruct (response_status_200 w (configured_target w token)
                (formatTokyoParts (clock_parts w))
                (entry_of (formatTokyoParts (clock_parts w)) msgs)
                (configured_commit w) (length msgs)
                (configured_path w) (tr ++ config_reads)) as (r' & tr' & Hrun & Hstatus).
    rewrite Hrun in Hr. injection Hr as <-. by rewrite Hstatus.
Qed.

Lemma unauthorized_iff_wrong_signature_witness :
  let w := example_world example_env no_network in
  let request := {| request_method := js "POST"; request_text := body_hello;
                    request_headers := {[ js "x-line-signature" := js "AAAA" ]} |} in
  handler w request []
  = (Returns invalid_signature_response,
     [EvEnv "LINE_CHANNEL_SECRET"%string; EvLog [LogStr (js "Invalid LINE signature")]]).
Proof.
  intros w request.
  assert (Hpost : request_method request <> js "GET") by by vm_compute.
  assert (Hsecret : env w !! "LINE_CHANNEL_SECRET"%string = Some (js "secret"))
    by by vm_compute.
  assert (Hne : js "secret" <> []) by by vm_compute.
  destruct (unauthorized_iff_wrong_signature w request (js "secret") [] Hpost Hsecret Hne)
    as [Hwrong _].
  apply Hwrong. by vm_compute.
Defined.

(** ** When the store is called *)

Lemma fetches_app_no_fetch (tr evs : list Event) :
  Forall (fun ev => is_fetch ev = false) evs -> fetches (tr ++ evs) = fetches tr.
Proof.
  intros H. unfold fetches. rewrite List.filter_app.
  assert (List.filter is_fetch evs = []) as ->; [|apply app_nil_r].
  induction H as [|ev evs Hev _ IH]; [done|]. simpl. by rewrite Hev.
Qed.

(** X9: the handler calls the store only for a POST that passed every check:
    the secret is set, the header is the signature of the body, the body
    parses, the payload is extracted into at least one text message and the
    token is set.  A GET and every refused, failed or empty request leave the
    store alone. *)
Theorem store_is_called_only_to_append (w : World) (request : Request) (tr : list Event) :
  fetches (snd (handler w request tr)) <> fetches tr ->
  request_method request <> js "GET"
  /\ exists secret token payload msgs,
       env w !! "LINE_CHANNEL_SECRET"%string = Some secret /\ secret <> []
       /\ request_headers request !! js "x-line-signature"
          = Some (hmac_b64 (request_text request) secret)
       /\ JSON_parse w (request_text request) = Returns payload
       /\ textMessages_of payload = Returns msgs /\ msgs <> []
       /\ env w !! "GITHUB_TOKEN"%string = Some token /\ token <> [].
Proof.
  intros Hcalls.
  assert (Hquiet : forall out evs,
            handler w request tr = (out, tr ++ evs) ->
            Forall (fun ev => is_fetch ev = false) evs -> False).
  { intros out evs Hrun Hevs. apply Hcalls. rewrite Hrun. by apply fetches_app_no_fetch. }
  destruct (decide (request_method request = js "GET")) as [Hget|Hpost].
  { exfalso. apply (Hquiet (Returns health_response) []); [|done].
    unfold handler. rewrite Hget, app_nil_r. done. }
  split; [done|].
  destruct (env_set_or_missing w "LINE_CHANNEL_SECRET") as [Hmissing|(secret & Hsecret & Hne)].
  { exfalso. eapply Hquiet; [by apply post_needs_the_secret_run|]. by repeat constructor. }
  destruct (verifyLineSignature_returns (request_text request)
              (request_headers request !! js "x-line-signature") secret) as [[] Hverify].
  2:{ exfalso. eapply Hquiet; [by apply (handler_rejects_signature w request secret)|].
      by repeat constructor. }
  destruct (JSON_parse w (request_text request)) as [payload|e] eqn:Hparse.
  2:{ exfalso. eapply Hquiet; [by apply (handler_rejects_json w request secret e)|].
      by repeat constructor. }
  destruct (textMessages_of payload) as [msgs|e] eqn:Hmsgs.
  2:{ exfalso.
      eapply Hquiet; [by apply (handler_extraction_throws w request secret payload e)|].
      by repeat constructor. }
  destruct (decide (msgs = [])) as [->|Hsome].
  { exfalso. eapply Hquiet; [by apply (handler_verified w request secret payload)|].
    by repeat constructor. }
  destruct (env_set_or_missing w "GITHUB_TOKEN") as [Hmissing|(token & Htoken & Hne')].
  { exfalso.
    eapply Hquiet; [by apply (handler_missing_token w request secret payload msgs)|].
    by repeat constructor. }
  exists secret, token, payload, msgs. repeat split; try done.
  by apply (proj1 (verifyLineSignature_true_iff _ _ _)).
Qed.

Lemma store_is_called_only_to_append_witness :
  let w := example_world example_env store_without_note in
  let request := signed_post body_hello in
  map kind_of (fetches (snd (handler w request []))) = [KGet; KPut]
  /\ request_method request <> js "GET"
  /\ exists payload msgs,
       JSON_parse w (request_text request) = Returns payload
       /\ textMessages_of payload = Returns msgs /\ msgs <> [].
Proof.
  intros w request.
  assert (Hcalls : fetches (snd (handler w request [])) <> fetches [])
    by (vm_compute; discriminate).
  destruct (store_is_called_only_to_append w request [] Hcalls)
    as (Hpost & secret & token & payload & msgs & _ & _ & _ & Hparse & Hmsgs & Hsome & _).
  split; [vm_compute; reflexivity|]. split; [exact Hpost|]. by exists payload, msgs.
Defined.

(** ** Where the token goes *)

Lemma github_call_get (o r path b token : jsstring) :
  github_call token (get_request o r path b token).
Proof.
  unfold github_call, get_request, github_request, contents_url.
  cbn [req_url req_headers req_method req_body].
  split; [rewrite <- ?app_assoc; apply starts_with_app|].
  repeat split; try by vm_compute. by left.
Qed.

Lemma github_call_put (o r path token : jsstring) (body : JValue) :
  github_call token (put_request o r path token body).
Proof.
  unfold github_call, put_request, github_request, contents_url.
  cbn [req_url req_headers req_method req_body].
  split; [rewrite <- ?app_assoc; apply starts_with_app|].
  repeat split; try by vm_compute. right. repeat split; by vm_compute.
Qed.

Lemma attempt_once_events (w : World) (tg : Target) (t : TimeParts)
    (entry commitMsg : jsstring) (tr : list Event) :
  exists out evs,
    attempt_once w tg t entry commitMsg tr = (out, tr ++ evs)
    /\ Forall (loop_event (ghToken tg)) evs.
Proof.
  destruct (getGitHubFile w (owner tg) (repo tg) (path tg) (branch tg) (ghToken tg) tr)
    as [[cur|e] tr1] eqn:Hget.
  - destruct (attempt_once_writes w tg t entry commitMsg cur tr tr1 Hget)
      as (o & r & Ho & Hr & Htrace).
    destruct (getGitHubFile_returns_inv _ _ _ _ _ _ _ _ _ Hget)
      as (o' & r' & b & _ & _ & _ & ->).
    destruct (attempt_once w tg t entry commitMsg tr) as [out tr2]. simpl in Htrace.
    exists out, [EvFetch (get_request o' r' (path tg) b (ghToken tg));
                 EvFetch (put_request o r (path tg) (ghToken tg)
                            (put_body commitMsg (nextContent_of t entry cur)
                                      (branch tg) (sha_of cur)))].
    split; [by rewrite Htrace, <- app_assoc|].
    constructor; [apply github_call_get|]. constructor; [apply github_call_put|]. constructor.
  - rewrite (attempt_once_get_throws _ _ _ _ _ _ _ _ Hget).
    destruct (encoded_or_not (owner tg) (repo tg) (branch tg))
      as [(o & r & b & Ho & Hr & Hb)|Hbad].
    + pose proof (getGitHubFile_trace w _ _ (path tg) _ (ghToken tg) _ _ _ tr Ho Hr Hb)
        as Htrace.
      rewrite Hget in Htrace. simpl in Htrace. subst tr1.
      eexists _, [_]. split; [done|]. constructor; [apply github_call_get|]. constructor.
    + destruct (getGitHubFile_not_encoded w _ _ (path tg) _ (ghToken tg) tr Hbad)
        as [e' He']. rewrite Hget in He'. injection He' as _ ->.
      exists (Throws e), []. split; [by rewrite app_nil_r|]. constructor.
Qed.

Lemma append_loop_events (w : World) (tg : Target) (t : TimeParts)
    (entry commitMsg : jsstring) (appended : nat) (attempts : list N)
    (lastErr : option JSError) (tr : list Event) :
  exists exit evs,
    append_loop w tg t entry commitMsg appended attempts lastErr tr
    = (Returns exit, tr ++ evs)
    /\ Forall (loop_event (ghToken tg)) evs.
Proof.
  revert lastErr tr. induction attempts as [|attempt later IH]; intros lastErr tr.
  { exists (Left lastErr), []. split; [by rewrite app_nil_r|constructor]. }
  destruct (attempt_once_events w tg t entry commitMsg tr) as (out & evs & Hrun & Hevs).
  destruct out as [[]|e].
  - rewrite (append_loop_success _ _ _ _ _ _ _ _ _ _ _ Hrun). eauto.
  - rewrite (append_loop_failure _ _ _ _ _ _ _ _ _ _ _ _ Hrun).
    destruct (_ && _); [|eauto].
    destruct (IH (Some e) ((tr ++ evs) ++ [EvSleep (150 * attempt)]))
      as (exit & evs' & -> & Hevs').
    exists exit, (evs ++ [EvSleep (150 * attempt)] ++ evs').
    split; [by rewrite <- !app_assoc|].
    apply Forall_app. split; [done|]. apply Forall_app. split; [|done].
    constructor; [exact I|constructor].
Qed.

Lemma finish_events (p : jsstring) (exit : LoopExit) (tr : list Event) :
  exists out evs, finish p exit tr = (out, tr ++ evs)
    /\ Forall (fun ev => is_fetch ev = false) evs.
Proof.
  destruct exit as [r|lastErr].
  - exists (Returns r), []. split; [by rewrite app_nil_r|constructor].
  - eexists _, [_]. split; [done|]. by repeat constructor.
Qed.

Lemma config_reads_no_fetch : Forall (fun ev => is_fetch ev = false) config_reads.
Proof. by repeat constructor. Qed.

(** X10: whatever the request and the answers of the store, every call the
    handler makes goes to the contents API of api.github.com, as a GET without
    body or a PUT with a JSON body, and carries the configured GITHUB_TOKEN as
    bearer token with the fixed Accept and API version headers.  No call
    goes anywhere else. *)
Theorem every_call_goes_to_github_with_the_token (w : World) (request : Request)
    (tr : list Event) :
  exists out evs,
    handler w request tr = (out, tr ++ evs)
    /\ forall req, EvFetch req ∈ evs ->
         exists token, env w !! "GITHUB_TOKEN"%string = Some token
                       /\ github_call token req.
Proof.
  assert (Hquiet : forall out evs,
            handler w request tr = (out, tr ++ evs) ->
            Forall (fun ev => is_fetch ev = false) evs ->
            exists out evs,
              handler w request tr = (out, tr ++ evs)
              /\ forall req, EvFetch req ∈ evs ->
                   exists token, env w !! "GITHUB_TOKEN"%string = Some token
                                 /\ github_call token req).
  { intros out evs Hrun Hevs. exists out, evs. split; [done|].
    intros req Hreq. rewrite Forall_forall in Hevs. by apply Hevs in Hreq. }
  destruct (decide (request_method request = js "GET")) as [Hget|Hpost].
  { apply (Hquiet (Returns health_response) []); [|constructor].
    unfold handler. rewrite Hget, app_nil_r. done. }
  destruct (env_set_or_missing w "LINE_CHANNEL_SECRET") as [Hmissing|(secret & Hsecret & Hne)].
  { eapply Hquiet; [by apply post_needs_the_secret_run|]. by repeat constructor. }
  destruct (verifyLineSignature_returns (request_text request)
              (request_headers request !! js "x-line-signature") secret) as [[] Hverify].
  2:{ eapply Hquiet; [by apply (handler_rejects_signature w request secret)|].
      by repeat constructor. }
  destruct (JSON_parse w (request_text request)) as [payload|e] eqn:Hparse.
  2:{ eapply Hquiet; [by apply (handler_rejects_json w request secret e)|].
      by repeat constructor. }
  destruct (textMessages_of payload) as [msgs|e] eqn:Hmsgs.
  2:{ eapply Hquiet; [by apply (handler_extraction_throws w request secret payload e)|].
      by repeat constructor. }
  destruct (decide (msgs = [])) as [->|Hsome].
  { eapply Hquiet; [by apply (handler_verified w request secret payload)|].
    by repeat constructor. }
  destruct (env_set_or_missing w "GITHUB_TOKEN") as [Hmissing|(token & Htoken & Hne')].
  { eapply Hquiet; [by apply (handler_missing_token w request secret payload msgs)|].
    by repeat constructor. }
  clear Hquiet.
  rewrite (handler_appends w request secret token payload msgs tr) by done.
  unfold append_and_finish. cbv zeta.
  destruct (append_loop_events w (configured_target w token)
              (formatTokyoParts (clock_parts w))
              (entry_of (formatTokyoParts (clock_parts w)) msgs)
              (configured_commit w) (length msgs) [1; 2; 3] None
              (tr ++ config_reads)) as (exit & evs & Hloop & Hevs).
  destruct (finish_events (configured_path w) exit ((tr ++ config_reads) ++ evs))
    as (out & evs' & Hfinish & Hevs').
  exists out, (config_reads ++ evs ++ evs'). split.
  - unfold bind. rewrite Hloop, Hfinish. by rewrite <- !app_assoc.
  - intros req Hreq. exists token. split; [done|].
    apply elem_of_app in Hreq as [Hreq|Hreq].
    { pose proof config_reads_no_fetch as Hreads.
      rewrite Forall_forall in Hreads. by apply Hreads in Hreq. }
    apply elem_of_app in Hreq as [Hreq|Hreq].
    + rewrite Forall_forall in Hevs. apply (Hevs _ Hreq).
    + rewrite Forall_forall in Hevs'. by apply Hevs' in Hreq.
Qed.

(** ** A write the store accepted *)

Lemma putGitHubFile_unreadable (w : World) (owner repo path branch token content : jsstring)
    (sha : option JValue) (message o r : jsstring) (res : HttpResponse) (e : JSError)
    (tr : list Event) :
  encodeURIComponent owner = Returns o ->
  encodeURIComponent repo = Returns r ->
  network w (length (List.filter is_fetch tr)) = FetchResolves res ->
  res_ok res = true ->
  res_json res = Throws e ->
  putGitHubFile w owner repo path branch token content sha message tr
  = (Throws e,
     tr ++ [EvFetch (put_request o r path token (put_body message content branch sha))]).
Proof.
  intros Ho Hr Hnet Hok Hjson.
  unfold putGitHubFile, githubRequest, fetch, bind, lift.
  by rewrite Ho, Hr, Hnet, Hok, Hjson.
Qed.

(** X11: a write that the store accepted (a 2xx answer) still fails the
    attempt when the answer cannot be read as JSON: the attempt throws the
    reader's error after the PUT went out, and the loop treats it like any
    other error, ending with it or, when its text contains 409 and the
    attempt is not the third, appending once more. *)
Theorem accepted_write_with_unreadable_answer (w : World) (tg : Target) (t : TimeParts)
    (entry commitMsg : jsstring) (cur : RemoteFile) (res : HttpResponse) (e : JSError)
    (tr tr1 : list Event) :
  getGitHubFile w (owner tg) (repo tg) (path tg) (branch tg) (ghToken tg) tr
  = (Returns cur, tr1) ->
  network w (length (fetches tr1)) = FetchResolves res ->
  res_ok res = true ->
  res_json res = Throws e ->
  exists put,
    attempt_once w tg t entry commitMsg tr = (Throws e, tr1 ++ [EvFetch put])
    /\ req_method put = js "PUT"
    /\ req_body put = Some (put_body commitMsg (nextContent_of t entry cur)
                              (branch tg) (sha_of cur))
    /\ forall appended attempt later lastErr,
         append_loop w tg t entry commitMsg appended (attempt :: later) lastErr tr
         = (if includes (error_detail e) (js "409") && negb (attempt =? 3)
            then append_loop w tg t entry commitMsg appended later (Some e)
                   ((tr1 ++ [EvFetch put]) ++ [EvSleep (150 * attempt)])
            else (Returns (Left (Some e)), tr1 ++ [EvFetch put])).
Proof.
  intros Hget Hnet Hok Hjson.
  destruct (getGitHubFile_returns_inv _ _ _ _ _ _ _ _ _ Hget)
    as (o & r & b & Ho & Hr & Hb & Htr1).
  pose proof (putGitHubFile_unreadable w (owner tg) (repo tg) (path tg) (branch tg)
                (ghToken tg) (nextContent_of t entry cur) (sha_of cur) commitMsg
                o r res e tr1 Ho Hr Hnet Hok Hjson) as Hput.
  assert (Hrun : attempt_once w tg t entry commitMsg tr
                 = (Throws e,
                    tr1 ++ [EvFetch (put_request o r (path tg) (ghToken tg)
                                       (put_body commitMsg (nextContent_of t entry cur)
                                                 (branch tg) (sha_of cur)))])).
  { unfold attempt_once, bind at 1. rewrite Hget. unfold bind. by rewrite Hput. }
  eexists. split; [exact Hrun|]. split; [done|]. split; [done|].
  intros appended attempt later lastErr.
  apply (append_loop_failure _ _ _ _ _ _ _ _ _ _ _ _ Hrun).
Qed.

Lemma accepted_write_with_unreadable_answer_witness :
  let w := example_world example_env store_accepts_unreadably in
  exists put,
    attempt_once w example_target example_time example_entry example_commit []
    = (Throws {| err_name := js "SyntaxError"; err_message := js "Unexpected token <" |},
       [EvFetch (get_request (js "KijimaMotofumi") (js "note") (js "daily/2026-01-02.md")
                   (js "main") (js "ghp_token"));
        EvFetch put])
    /\ req_method put = js "PUT".
Proof.
  intros w.
  set (e := {| err_name := js "SyntaxError"; err_message := js "Unexpected token <" |}).
  set (res := {| res_status := 200; res_text := Returns (js "<html>");
                 res_json := Throws e |}).
  set (tr1 := [EvFetch (get_request (js "KijimaMotofumi") (js "note")
                          (js "daily/2026-01-02.md") (js "main") (js "ghp_token"))]).
  assert (Hget : getGitHubFile w (owner example_target) (repo example_target)
                   (path example_target) (branch example_target)
                   (ghToken example_target) []
                 = (Returns NotFound, tr1)) by by vm_compute.
  assert (Hnet : network w (length (fetches tr1)) = FetchResolves res) by by vm_compute.
  assert (Hok : res_ok res = true) by by vm_compute.
  assert (Hjson : res_json res = Throws e) by done.
  destruct (accepted_write_with_unreadable_answer w example_target example_time
              example_entry example_commit NotFound res e [] tr1 Hget Hnet Hok Hjson)
    as (put & Hrun & Hmethod & _).
  exists put. split; [exact Hrun|exact Hmethod].
Defined.

(** ** The path and the date of a request *)

Lemma env_text_missing (w : World) (name : string) (fallback : jsstring) :
  env_missing w name -> env_text w name fallback = fallback.
Proof. unfold env_text. by intros [-> | ->]. Qed.

(** X12: when the clock gives decimal year, month and day parts, the date of
    the request is year-month-day, the path the handler writes to is its
    configured template with the placeholders resolved in one pass, the
    commit message carries the same date, and with NOTE_FILE_PATH_TEMPLATE
    unset or empty the path is daily/year-month-day.md. *)
Theorem path_and_date_come_from_the_clock (w : World) (y m d : jsstring) :
  List.find (fun p => String.eqb (fst p) "year") (clock_parts w)
  = Some ("year"%string, y) ->
  List.find (fun p => String.eqb (fst p) "month") (clock_parts w)
  = Some ("month"%string, m) ->
  List.find (fun p => String.eqb (fst p) "day") (clock_parts w)
  = Some ("day"%string, d) ->
  decimal y -> decimal m -> decimal d ->
  date (formatTokyoParts (clock_parts w)) = y ++ js "-" ++ m ++ js "-" ++ d
  /\ yy (formatTokyoParts (clock_parts w)) = slice_last 2 y
  /\ configured_path w
     = resolve_placeholders (configured_template w) (formatTokyoParts (clock_parts w))
  /\ configured_commit w
     = js "note: append from LINE (" ++ y ++ js "-" ++ m ++ js "-" ++ d ++ js ")"
  /\ (env_missing w "NOTE_FILE_PATH_TEMPLATE" ->
      configured_path w = js "daily/" ++ y ++ js "-" ++ m ++ js "-" ++ d ++ js ".md").
Proof.
  intros Hy Hm Hd Dy Dm Dd.
  pose proof (formatTokyoParts_decimal (clock_parts w) y m d Hy Hm Hd Dy Dm Dd) as Hdec.
  assert (Hdate : date (formatTokyoParts (clock_parts w)) = y ++ js "-" ++ m ++ js "-" ++ d).
  { unfold formatTokyoParts. cbn [date]. by rewrite Hy, Hm, Hd. }
  assert (Hpath : configured_path w
                  = resolve_placeholders (configured_template w)
                      (formatTokyoParts (clock_parts w))).
  { unfold configured_path, resolve_placeholders.
    rewrite <- passes_substitute by by apply placeholders_good. done. }
  split; [exact Hdate|]. split.
  { unfold formatTokyoParts. cbn [yy]. by rewrite Hy. }
  split; [exact Hpath|]. split.
  { unfold configured_commit. rewrite Hdate. by rewrite <- !app_assoc. }
  intros Hmissing. rewrite Hpath. unfold configured_template.
  rewrite (env_text_missing _ _ _ Hmissing).
  unfold resolve_placeholders, placeholders.
  generalize (formatTokyoParts (clock_parts w)), Hdate. intros t Ht.
  transitivity (js "daily/" ++ date t ++ js ".md"); [by vm_compute|].
  rewrite Ht. by rewrite <- !app_assoc.
Qed.

Lemma path_and_date_come_from_the_clock_witness :
  configured_path (example_world example_env no_network) = js "daily/2026-01-02.md"
  /\ configured_commit (example_world example_env no_network)
     = js "note: append from LINE (2026-01-02)".
Proof.
  assert (Hy : decimal (js "2026")) by by split.
  assert (Hm : decimal (js "01")) by by split.
  assert (Hd : decimal (js "02")) by by split.
  assert (Hmissing : env_missing (example_world example_env no_network)
                       "NOTE_FILE_PATH_TEMPLATE") by (left; by vm_compute).
  destruct (path_and_date_come_from_the_clock (example_world example_env no_network)
              (js "2026") (js "01") (js "02") eq_refl eq_refl eq_refl Hy Hm Hd)
    as (_ & _ & _ & Hcommit & Hpath).
  split; [exact (Hpath Hmissing)|exact Hcommit].
Defined.

(** ** The sender *)

Lemma render_line_text (t : TimeParts) (m1 m2 : TextMessage) :
  text m1 = text m2 -> render_line t m1 = render_line t m2.
Proof. intros H. unfold render_line. by rewrite H. Qed.

Lemma map_render_line_texts (t : TimeParts) (ms1 ms2 : list TextMessage) :
  map text ms1 = map text ms2 -> map (render_line t) ms1 = map (render_line t) ms2.
Proof.
  revert ms2. induction ms1 as [|m1 ms1 IH]; intros [|m2 ms2]; try done.
  cbn [map]. intros [= Hm Hms]. by rewrite (render_line_text t m1 m2 Hm), (IH ms2 Hms).
Qed.

(** X13: a sender that [String] converts is never used.  Two verified
    requests whose payloads are extracted without error into messages with
    the same texts in the same order, whoever sent them, make the handler do
    the same calls and give the same answer. *)
Theorem sender_is_never_used (w : World) (r1 r2 : Request) (secret : jsstring)
    (p1 p2 : JValue) (ms1 ms2 : list TextMessage) (tr : list Event) :
  request_method r1 <> js "GET" -> request_method r2 <> js "GET" ->
  env w !! "LINE_CHANNEL_SECRET"%string = Some secret -> secret <> [] ->
  request_headers r1 !! js "x-line-signature" = Some (hmac_b64 (request_text r1) secret) ->
  request_headers r2 !! js "x-line-signature" = Some (hmac_b64 (request_text r2) secret) ->
  JSON_parse w (request_text r1) = Returns p1 ->
  JSON_parse w (request_text r2) = Returns p2 ->
  textMessages_of p1 = Returns ms1 ->
  textMessages_of p2 = Returns ms2 ->
  map text ms1 = map text ms2 ->
  handler w r1 tr = handler w r2 tr.
Proof.
  intros Hpost1 Hpost2 Hsecret Hne Hsig1 Hsig2 Hparse1 Hparse2 Hms1 Hms2 Htexts.
  assert (Hv1 : verifyLineSignature (request_text r1)
                  (request_headers r1 !! js "x-line-signature") secret = Returns true)
    by by apply verifyLineSignature_true_iff.
  assert (Hv2 : verifyLineSignature (request_text r2)
                  (request_headers r2 !! js "x-line-signature") secret = Returns true)
    by by apply verifyLineSignature_true_iff.
  assert (Hlen : length ms1 = length ms2).
  { by rewrite <- (length_map text ms1), Htexts, length_map. }
  destruct (decide (ms1 = [])) as [->|Hsome].
  { assert (ms2 = []) as -> by by destruct ms2.
    rewrite (handler_verified w r1 secret p1) by done.
    by rewrite (handler_verified w r2 secret p2). }
  assert (Hsome2 : ms2 <> []).
  { intros ->. by destruct ms1. }
  destruct (env_set_or_missing w "GITHUB_TOKEN") as [Hmissing|(token & Htoken & Hne')].
  { rewrite (handler_missing_token w r1 secret p1 ms1) by done.
    by rewrite (handler_missing_token w r2 secret p2 ms2). }
  rewrite (handler_appends w r1 secret token p1 ms1) by done.
  rewrite (handler_appends w r2 secret token p2 ms2) by done.
  unfold append_and_finish, entry_of. cbv zeta.
  by rewrite (map_render_line_texts _ _ _ Htexts), Hlen.
Qed.

Lemma sender_is_never_used_witness :
  handler sender_world (signed_post body_hello_from) []
  = handler sender_world (signed_post body_hello) [].
Proof.
  assert (Hpost1 : request_method (signed_post body_hello_from) <> js "GET")
    by (vm_compute; discriminate).
  assert (Hpost2 : request_method (signed_post body_hello) <> js "GET")
    by (vm_compute; discriminate).
  assert (Hsecret : env sender_world !! "LINE_CHANNEL_SECRET"%string = Some (js "secret"))
    by (vm_compute; reflexivity).
  assert (Hne : js "secret" <> []) by discriminate.
  assert (Hsig1 : request_headers (signed_post body_hello_from) !! js "x-line-signature"
                  = Some (hmac_b64 (request_text (signed_post body_hello_from)) (js "secret")))
    by apply lookup_singleton_eq.
  assert (Hsig2 : request_headers (signed_post body_hello) !! js "x-line-signature"
                  = Some (hmac_b64 (request_text (signed_post body_hello)) (js "secret")))
    by apply lookup_singleton_eq.
  assert (Hparse1 : JSON_parse sender_world (request_text (signed_post body_hello_from))
                    = Returns (payload_of [text_event_from (js "U4af4980629") (js "hello")]))
    by (vm_compute; reflexivity).
  assert (Hparse2 : JSON_parse sender_world (request_text (signed_post body_hello))
                    = Returns (payload_of [text_event (js "hello")]))
    by (vm_compute; reflexivity).
  assert (Hms1 : textMessages_of (payload_of [text_event_from (js "U4af4980629") (js "hello")])
                 = Returns [{| text := js "hello"; userId := Some (js "U4af4980629") |}])
    by (vm_compute; reflexivity).
  assert (Hms2 : textMessages_of (payload_of [text_event (js "hello")])
                 = Returns [{| text := js "hello"; userId := None |}])
    by (vm_compute; reflexivity).
  exact (sender_is_never_used sender_world (signed_post body_hello_from)
           (signed_post body_hello) (js "secret") _ _ _ _ [] Hpost1 Hpost2 Hsecret Hne
           Hsig1 Hsig2 Hparse1 Hparse2 Hms1 Hms2 eq_refl).
Defined.
